(** * The openweathermap publisher: provisioning and update cycles

    A shallow embedding of [openweathermap/openweathermap.go].  The adapter
    is glue between two collaborators: the weather client of its own package
    ([GetCurrentWeather], [GetDailyForecast]) and the IoTConnect publisher
    framework (packages [standard] and [publisher]).  The adapter's
    behaviour is the sequence of framework calls it makes, so each of its
    functions is embedded as the list of calls it issues, in program order;
    the node and output registry of the framework is a separate, small model
    on which the provisioning calls are run. *)

From Stdlib Require Import ZArith String Ascii List Lia.
From Stdlib Require Import Floats.PrimFloat Floats.FloatOps Floats.SpecFloat.
From Stdlib Require Import Numbers.DecimalString.
From stdpp Require Import gmap strings.

Local Open Scope string_scope.
Local Open Scope Z_scope.

(** ** Go values *)

(** A Go call returning [(value, err)]: [Ok v] when [err == nil], otherwise
    [Err msg] with the error's message. *)
Inductive result (A : Type) : Type :=
| Ok (value : A)
| Err (err : string).
Arguments Ok {A} value.
Arguments Err {A} err.

(** ** Package fmt: the three verbs the adapter uses

    [fmt.Sprintf] with ["%.1f"], ["%.0f"] and ["%d"].  A float64 is a
    primitive binary64 float.  Go converts the exact binary value to decimal
    and rounds to the requested number of decimals, ties to even; infinities
    print as [+Inf] and [-Inf], not-a-number as [NaN], and the sign of a
    negative zero is kept. *)
Module fmt.

Definition sign_prefix (neg : bool) : string := if neg then "-" else "".

(** The integer nearest to [num / den] ([den > 0]), ties to even. *)
Definition round_half_even (num den : Z) : Z :=
  let q := num / den in
  let r := num mod den in
  if den <? 2 * r then q + 1
  else if (den =? 2 * r) && Z.odd q then q + 1
  else q.

(** [m * 2^e * 10^prec], rounded to an integer. *)
Definition scaled (prec : nat) (m : positive) (e : Z) : Z :=
  let n := Z.pos m * 10 ^ Z.of_nat prec in
  if 0 <=? e then n * 2 ^ e else round_half_even n (2 ^ (- e)).

Definition digits (n : Z) : string :=
  NilZero.string_of_uint (N.to_uint (Z.to_N n)).

Fixpoint zeros (k : nat) : string :=
  match k with
  | O => ""
  | S k' => "0" ++ zeros k'
  end.

Definition pad_left (width : nat) (s : string) : string :=
  zeros (width - String.length s) ++ s.

(** The decimal numeral of [n / 10^prec] with exactly [prec] decimals. *)
Definition fixed (prec : nat) (n : Z) : string :=
  let ds := pad_left (S prec) (digits n) in
  let split := (String.length ds - prec)%nat in
  match prec with
  | O => ds
  | _ => substring 0 split ds ++ "." ++ substring split prec ds
  end.

Definition format_float (prec : nat) (x : float) : string :=
  match Prim2SF x with
  | S754_nan => "NaN"
  | S754_infinity false => "+Inf"
  | S754_infinity true => "-Inf"
  | S754_zero neg => sign_prefix neg ++ fixed prec 0
  | S754_finite neg m e => sign_prefix neg ++ fixed prec (scaled prec m e)
  end.

(** [fmt.Sprintf("%.1f", x)] *)
Definition Sprintf_1f (x : float) : string := format_float 1 x.

(** [fmt.Sprintf("%.0f", x)] *)
Definition Sprintf_0f (x : float) : string := format_float 0 x.

(** [fmt.Sprintf("%d", n)] *)
Definition Sprintf_d (n : Z) : string := NilZero.string_of_int (Z.to_int n).

End fmt.

(** ** Package standard (IoTConnect framework): nodes, outputs, history *)
Module standard.

(** Modelled from the spec: the output types of the framework.  The
    source names eight [standard.IOType...] constants; their declarations
    are the framework's.  They are taken to be pairwise distinct. *)
Inductive IOType : Set :=
| IOTypeWeather
| IOTypeTemperature
| IOTypeHumidity
| IOTypeAtmosphericPressure
| IOTypeWindHeading
| IOTypeWindSpeed
| IOTypeRain
| IOTypeSnow.

(** Modelled from the spec: the data type of a configuration entry; only
    [DataTypeEnum] occurs in the adapter. *)
Inductive DataType : Set :=
| DataTypeEnum.

(** Modelled from the spec: a configuration entry of a node.  The adapter
    reads the field [Value] and builds entries with [NewConfig]. *)
Record ConfigAttr : Set := {
  ConfigID : string;
  ConfigDataType : DataType;
  Description : string;
  Default : string;
  Value : string
}.

(** Modelled from the spec: [standard.NewConfig(id, datatype, description,
    defaultValue)].  The entry carries the default; until it is configured
    its value is the default ("language per city, default en"). *)
Definition NewConfig (id : string) (datatype : DataType)
    (description defaultValue : string) : ConfigAttr :=
  {| ConfigID := id; ConfigDataType := datatype; Description := description;
     Default := defaultValue; Value := defaultValue |}.

(** Modelled from the spec: a node is identified by its zone, publisher and
    node identifier and owns a configuration map. *)
Record Node : Type := {
  Zone : string;
  Publisher : string;
  ID : string;
  Config : gmap string ConfigAttr
}.

(** Modelled from the spec: [standard.NewNode(zone, publisher, id)], a
    node without configuration. *)
Definition NewNode (zone publisher id : string) : Node :=
  {| Zone := zone; Publisher := publisher; ID := id; Config := ∅ |}.

(** [standard.HistoryValue]; the timestamp is in Unix seconds.  (The Go
    field [Value] is [HistValue] here, [Value] being taken by
    [ConfigAttr].) *)
Record HistoryValue : Set := {
  Timestamp : Z;
  HistValue : string
}.

(** [standard.HistoryList], a slice of history values. *)
Abbreviation HistoryList := (list HistoryValue).

(** [standard.AttrMap], the argument and result of a configuration
    handler. *)
Definition AttrMap : Type := gmap string string.

End standard.

#[global] Instance IOType_eq_dec : EqDecision standard.IOType.
Proof. solve_decision. Defined.

Definition IOType_code (t : standard.IOType) : nat :=
  match t with
  | standard.IOTypeWeather => 0
  | standard.IOTypeTemperature => 1
  | standard.IOTypeHumidity => 2
  | standard.IOTypeAtmosphericPressure => 3
  | standard.IOTypeWindHeading => 4
  | standard.IOTypeWindSpeed => 5
  | standard.IOTypeRain => 6
  | standard.IOTypeSnow => 7
  end%nat.

Definition IOType_of_code (n : nat) : standard.IOType :=
  match n with
  | 0 => standard.IOTypeWeather
  | 1 => standard.IOTypeTemperature
  | 2 => standard.IOTypeHumidity
  | 3 => standard.IOTypeAtmosphericPressure
  | 4 => standard.IOTypeWindHeading
  | 5 => standard.IOTypeWindSpeed
  | 6 => standard.IOTypeRain
  | _ => standard.IOTypeSnow
  end%nat.

#[global] Instance IOType_countable : Countable standard.IOType.
Proof.
  apply (inj_countable' IOType_code IOType_of_code).
  intros []; reflexivity.
Defined.

(** ** Package publisher (IoTConnect framework) *)
Module publisher.
Import standard.

(** The calls with which [PublishNodes] declares nodes and outputs:
    [weatherPub.Nodes.UpdateNode], [weatherPub.Nodes.UpdateNodeConfig] and
    [weatherPub.Outputs.NewOutput]. *)
Inductive ProvisionCall : Type :=
| UpdateNode (node : Node)
| UpdateNodeConfig (node : Node) (config : ConfigAttr)
| NewOutput (node : Node) (ioType : IOType) (instance : string).

(** The calls of an update or forecast cycle: [weatherPub.Logger.Info],
    [weatherPub.SetErrorStatus], [weatherPub.OutputHistory.UpdateOutputValue]
    and [weatherPub.UpdateForecast]. *)
Inductive CycleCall : Type :=
| LoggerInfo (msg : string)
| SetErrorStatus (node : Node) (msg : string)
| UpdateOutputValue (node : Node) (ioType : IOType) (instance : string)
    (value : string)
| UpdateForecast (node : Node) (ioType : IOType) (instance : string)
    (forecast : HistoryList).

(** Address of a node: zone, publisher, node identifier. *)
Abbreviation NodeAddr := (string * string * string)%type.

(** Address of an output: its node, its type and its instance. *)
Abbreviation OutputAddr := (string * string * string * IOType * string)%type.

Definition node_addr (node : Node) : NodeAddr :=
  (Zone node, Publisher node, ID node).

Definition output_addr (node : Node) (ioType : IOType) (instance : string)
    : OutputAddr :=
  (Zone node, Publisher node, ID node, ioType, instance).

(** Modelled from the spec: the [publisher.PublisherState] registry, "an
    ordered map keyed by identifier" of nodes and of outputs, with the
    publisher's own node.  The framework's implementation is not part of
    this repository. *)
Record PublisherState : Type := {
  PublisherNode : Node;
  Nodes : gmap NodeAddr Node;
  Outputs : gmap OutputAddr (IOType * string)
}.

(** Modelled from the spec: [Nodes.UpdateNode], "create a node if
    absent". *)
Definition update_node (node : Node) (st : PublisherState) : PublisherState :=
  match Nodes st !! node_addr node with
  | Some _ => st
  | None =>
      {| PublisherNode := PublisherNode st;
         Nodes := <[node_addr node := node]> (Nodes st);
         Outputs := Outputs st |}
  end.

Definition with_config (config : ConfigAttr) (node : Node) : Node :=
  {| Zone := Zone node; Publisher := Publisher node; ID := ID node;
     Config := <[ConfigID config := config]> (Config node) |}.

(** Modelled from the spec: [Nodes.UpdateNodeConfig], "attach a
    configuration entry ... unless overridden by prior config": the entry
    is added to the registered node unless that node already has an entry
    of this name. *)
Definition update_node_config (node : Node) (config : ConfigAttr)
    (st : PublisherState) : PublisherState :=
  match Nodes st !! node_addr node with
  | None => st
  | Some registered =>
      match Config registered !! ConfigID config with
      | Some _ => st
      | None =>
          {| PublisherNode := PublisherNode st;
             Nodes := <[node_addr node := with_config config registered]> (Nodes st);
             Outputs := Outputs st |}
      end
  end.

(** Modelled from the spec: [Outputs.NewOutput], create-output semantics
    that "must not create duplicates": an output is created at its address
    unless one is there. *)
Definition new_output (node : Node) (ioType : IOType) (instance : string)
    (st : PublisherState) : PublisherState :=
  match Outputs st !! output_addr node ioType instance with
  | Some _ => st
  | None =>
      {| PublisherNode := PublisherNode st;
         Nodes := Nodes st;
         Outputs := <[output_addr node ioType instance := (ioType, instance)]> (Outputs st) |}
  end.

Definition provision (st : PublisherState) (call : ProvisionCall) : PublisherState :=
  match call with
  | UpdateNode node => update_node node st
  | UpdateNodeConfig node config => update_node_config node config st
  | NewOutput node ioType instance => new_output node ioType instance st
  end.

(** The registry after a sequence of provisioning calls. *)
Definition provision_all (calls : list ProvisionCall) (st : PublisherState)
    : PublisherState :=
  fold_left provision calls st.

(** The outputs registered on the node at an address. *)
Definition outputs_of (addr : NodeAddr) (st : PublisherState)
    : gset (IOType * string) :=
  list_to_set
    (omap (fun '(z, p, i, t, inst) =>
             if decide ((z, p, i) = addr) then Some (t, inst) else None)
          (elements (dom (Outputs st)))).

(** The ["language"] entry of the node registered at an address. *)
Definition language_config (addr : NodeAddr) (st : PublisherState)
    : option ConfigAttr :=
  match Nodes st !! addr with
  | Some node => Config node !! "language"
  | None => None
  end.

End publisher.

(** ** Package openweathermap: the weather client's data *)

(** The response types are declared with the weather client, in a file of
    the package other than [openweathermap.go]; the records below have the
    fields that [UpdateWeather] and [UpdateForecast] read, floating-point
    readings as float64. *)
Record WeatherInfo : Set := {
  Description : string
}.

Record MainReadings : Set := {
  Temperature : float;
  Humidity : Z;
  Pressure : float
}.

Record WindReadings : Set := {
  Speed : float;
  Heading : float
}.

Record Precipitation : Set := {
  LastHour : float
}.

Record CurrentWeather : Set := {
  Weather : list WeatherInfo;
  Main : MainReadings;
  Wind : WindReadings;
  Rain : Precipitation;
  Snow : Precipitation
}.

Record ForecastTemp : Set := {
  Max : float;
  Min : float
}.

(** One entry of [dailyForecast.List] (its Go field [Weather] is
    [DayWeather] here). *)
Record Forecast : Set := {
  Date : Z;
  DayWeather : list WeatherInfo;
  Temp : ForecastTemp
}.

(** [dailyForecast.List] is a Go slice, which is [nil] ([None]) or holds
    zero or more entries ([Some l]): the source compares it with [nil]. *)
Record DailyForecast : Set := {
  ForecastList : option (list Forecast)  (* Go field [List] *)
}.

(** The conversion [int64(x)]: wrap-around to 64 bits, two's complement. *)
Definition int64 (x : Z) : Z := (x + 2 ^ 63) mod 2 ^ 64 - 2 ^ 63.

(** ** Package openweathermap: the adapter *)

(** CurrentWeatherInst instance name for current weather *)
Definition CurrentWeatherInst : string := "current".

(** LastHourWeatherInst instance name for last 1 hour weather (eg rain, snow) *)
Definition LastHourWeatherInst : string := "hour".

(** ForecastWeatherInst instance name for upcoming forecast *)
Definition ForecastWeatherInst : string := "forecast".

(** The constant [PublisherID], default publisher identifier (the name
    [PublisherID] is the record field below). *)
Definition PublisherID_default : string := "openweathermap".

(** WeatherApp with application state, loaded from openweathermap.conf *)
Record WeatherApp : Set := {
  Cities : list string;
  APIKey : string;
  PublisherID : string
}.

(** NewWeatherApp creates the weather app *)
Definition NewWeatherApp : WeatherApp :=
  {| Cities := []; APIKey := ""; PublisherID := PublisherID_default |}.

(** The node [PublishNodes] builds for a city. *)
Definition cityNode (weatherApp : WeatherApp) (zone city : string) : standard.Node :=
  standard.NewNode zone (PublisherID weatherApp) city.

(** The ["language"] entry [PublishNodes] attaches to every city node. *)
Definition lc : standard.ConfigAttr :=
  standard.NewConfig "language" standard.DataTypeEnum
    "Reporting language. See https://openweathermap.org/current for more options"
    "en".

(** The body of the loop of [PublishNodes], for one city. *)
Definition PublishNodes_city (weatherApp : WeatherApp) (zone city : string)
    : list publisher.ProvisionCall :=
  let cityNode := standard.NewNode zone (PublisherID weatherApp) city in
  [ publisher.UpdateNode cityNode;
    publisher.UpdateNodeConfig cityNode lc;
    publisher.NewOutput cityNode standard.IOTypeWeather CurrentWeatherInst;
    publisher.NewOutput cityNode standard.IOTypeTemperature CurrentWeatherInst;
    publisher.NewOutput cityNode standard.IOTypeHumidity CurrentWeatherInst;
    publisher.NewOutput cityNode standard.IOTypeAtmosphericPressure CurrentWeatherInst;
    publisher.NewOutput cityNode standard.IOTypeWindHeading CurrentWeatherInst;
    publisher.NewOutput cityNode standard.IOTypeWindSpeed CurrentWeatherInst;
    publisher.NewOutput cityNode standard.IOTypeRain LastHourWeatherInst;
    publisher.NewOutput cityNode standard.IOTypeSnow LastHourWeatherInst;
    publisher.NewOutput cityNode standard.IOTypeWeather ForecastWeatherInst;
    publisher.NewOutput cityNode standard.IOTypeTemperature "max";
    publisher.NewOutput cityNode standard.IOTypeAtmosphericPressure "min" ].

(** The calls of [PublishNodes], in program order. *)
Definition PublishNodes_calls (weatherApp : WeatherApp)
    (weatherPub : publisher.PublisherState) : list publisher.ProvisionCall :=
  let pubNode := publisher.PublisherNode weatherPub in
  let zone := standard.Zone pubNode in
  flat_map (PublishNodes_city weatherApp zone) (Cities weatherApp).

(** PublishNodes creates the nodes and outputs *)
Definition PublishNodes (weatherApp : WeatherApp)
    (weatherPub : publisher.PublisherState) : publisher.PublisherState :=
  publisher.provision_all (PublishNodes_calls weatherApp weatherPub) weatherPub.

(** The outputs declared by a sequence of provisioning calls on nodes with a
    given address, in call order. *)
Definition declared_outputs (addr : publisher.NodeAddr)
    (calls : list publisher.ProvisionCall) : list (standard.IOType * string) :=
  omap (fun call =>
          match call with
          | publisher.NewOutput node ioType instance =>
              if decide (publisher.node_addr node = addr)
              then Some (ioType, instance) else None
          | _ => None
          end) calls.

(** [node.Config["language"].Value]; a key that is absent reads as the zero
    value, whose [Value] is the empty string. *)
Definition language_of (node : standard.Node) : string :=
  match standard.Config node !! "language" with
  | Some config => standard.Value config
  | None => ""
  end.

(** The description in a weather list: that of its first entry, the empty
    string when the list is empty. *)
Definition first_description (weather : list WeatherInfo) : string :=
  let weatherDescription := "" in
  match weather with
  | first :: _ => Description first
  | [] => weatherDescription
  end.

(** The eight output values [UpdateWeather] writes for a node, from a
    successful response. *)
Definition UpdateWeather_values (node : standard.Node)
    (currentWeather : CurrentWeather) : list publisher.CycleCall :=
  let weatherDescription := first_description (Weather currentWeather) in
  [ publisher.UpdateOutputValue node standard.IOTypeWeather CurrentWeatherInst
      weatherDescription;
    publisher.UpdateOutputValue node standard.IOTypeTemperature CurrentWeatherInst
      (fmt.Sprintf_1f (Temperature (Main currentWeather)));
    publisher.UpdateOutputValue node standard.IOTypeHumidity CurrentWeatherInst
      (fmt.Sprintf_d (Humidity (Main currentWeather)));
    publisher.UpdateOutputValue node standard.IOTypeAtmosphericPressure CurrentWeatherInst
      (fmt.Sprintf_0f (Pressure (Main currentWeather)));
    publisher.UpdateOutputValue node standard.IOTypeWindSpeed CurrentWeatherInst
      (fmt.Sprintf_1f (Speed (Wind currentWeather)));
    publisher.UpdateOutputValue node standard.IOTypeWindHeading CurrentWeatherInst
      (fmt.Sprintf_0f (Heading (Wind currentWeather)));
    publisher.UpdateOutputValue node standard.IOTypeRain LastHourWeatherInst
      (fmt.Sprintf_1f (LastHour (Rain currentWeather) * 1000)%float);
    publisher.UpdateOutputValue node standard.IOTypeSnow LastHourWeatherInst
      (fmt.Sprintf_1f (LastHour (Snow currentWeather) * 1000)%float) ].

(** One iteration of the loop over [dailyForecast.List]: the three
    accumulators before and after.  The third one is assigned
    [append(maxTempList, ...)], as in the source.  Lists stand for the
    slices: [append] may store the new element in the array it shares with
    [maxTempList], beyond the length of [maxTempList], where the next
    iteration's [append] to [maxTempList] overwrites it; by then
    [minTempList] has been assigned anew, and after the last iteration
    nothing is appended, so the contents of the three slices after the loop
    are those of the lists. *)
Definition forecast_step
    (lists : standard.HistoryList * standard.HistoryList * standard.HistoryList)
    (forecast : Forecast)
    : standard.HistoryList * standard.HistoryList * standard.HistoryList :=
  let '(weatherList, maxTempList, minTempList) := lists in
  let timestamp := int64 (Date forecast) in
  let weatherDescription := first_description (DayWeather forecast) in
  let weatherList :=
    (weatherList ++ [ {| standard.Timestamp := timestamp;
                         standard.HistValue := weatherDescription |} ])%list in
  let maxTempList :=
    (maxTempList ++ [ {| standard.Timestamp := timestamp;
                         standard.HistValue := fmt.Sprintf_1f (Max (Temp forecast)) |} ])%list in
  let minTempList :=
    (maxTempList ++ [ {| standard.Timestamp := timestamp;
                         standard.HistValue := fmt.Sprintf_1f (Min (Temp forecast)) |} ])%list in
  (weatherList, maxTempList, minTempList).

(** The three lists after the loop, from three empty lists. *)
Definition forecast_lists (forecasts : list Forecast)
    : standard.HistoryList * standard.HistoryList * standard.HistoryList :=
  fold_left forecast_step forecasts ([], [], []).

(** The three forecasts [UpdateForecast] publishes for a node. *)
Definition UpdateForecast_values (node : standard.Node) (forecasts : list Forecast)
    : list publisher.CycleCall :=
  let '(weatherList, maxTempList, minTempList) := forecast_lists forecasts in
  [ publisher.UpdateForecast node standard.IOTypeWeather ForecastWeatherInst weatherList;
    publisher.UpdateForecast node standard.IOTypeTemperature "max" maxTempList;
    publisher.UpdateForecast node standard.IOTypeTemperature "min" minTempList ].

Section Adapter.

(** [standard.PublisherNodeID], the identifier of the publisher's own
    node; its value is the framework's. *)
Variable PublisherNodeID : string.

(** The weather client, [GetCurrentWeather(apikey, city, language)] and
    [GetDailyForecast(apikey, city, language)].  Within one cycle its answer
    is a function of its arguments. *)
Variable GetCurrentWeather : string -> string -> string -> result CurrentWeather.
Variable GetDailyForecast : string -> string -> string -> result DailyForecast.

(** The loop of [UpdateWeather] over [weatherPub.Nodes.GetAllNodes()]; a
    [return] in the body ends the list of calls. *)
Fixpoint UpdateWeather_loop (apikey : string) (nodes : list standard.Node)
    : list publisher.CycleCall :=
  match nodes with
  | [] => []
  | node :: rest =>
      if String.eqb (standard.ID node) PublisherNodeID
      then UpdateWeather_loop apikey rest
      else
        let language := language_of node in
        match GetCurrentWeather apikey (standard.ID node) language with
        | Err _ =>
            [ publisher.SetErrorStatus node "Current weather not available" ]
        | Ok currentWeather =>
            (UpdateWeather_values node currentWeather
               ++ UpdateWeather_loop apikey rest)%list
        end
  end.

(** UpdateWeather obtains the weather and publishes the output value.
    [nodes] is [weatherPub.Nodes.GetAllNodes()], in the order the framework
    returns it. *)
Definition UpdateWeather (weatherApp : WeatherApp) (nodes : list standard.Node)
    : list publisher.CycleCall :=
  let apikey := APIKey weatherApp in
  publisher.LoggerInfo "UpdateWeather" :: UpdateWeather_loop apikey nodes.

(** The loop of [UpdateForecast]. *)
Fixpoint UpdateForecast_loop (apikey : string) (nodes : list standard.Node)
    : list publisher.CycleCall :=
  match nodes with
  | [] => []
  | node :: rest =>
      if String.eqb (standard.ID node) PublisherNodeID
      then UpdateForecast_loop apikey rest
      else
        let language := language_of node in
        match GetDailyForecast apikey (standard.ID node) language with
        | Err _ =>
            [ publisher.SetErrorStatus node "Error getting the daily forecast" ]
        | Ok dailyForecast =>
            match ForecastList dailyForecast with
            | None =>
                [ publisher.SetErrorStatus node "Daily forecast not provided" ]
            | Some forecasts =>
                (UpdateForecast_values node forecasts
                   ++ UpdateForecast_loop apikey rest)%list
            end
        end
  end.

(** UpdateForecast obtains a daily forecast and publishes this as a
    $forecast command. *)
Definition UpdateForecast (weatherApp : WeatherApp) (nodes : list standard.Node)
    : list publisher.CycleCall :=
  let apikey := APIKey weatherApp in
  UpdateForecast_loop apikey nodes.

(** What a node contributes to an update cycle that is not aborted before
    or at it. *)
Definition weather_calls (apikey : string) (node : standard.Node)
    : list publisher.CycleCall :=
  if String.eqb (standard.ID node) PublisherNodeID then []
  else match GetCurrentWeather apikey (standard.ID node) (language_of node) with
       | Ok currentWeather => UpdateWeather_values node currentWeather
       | Err _ => []
       end.

(** The update cycle gets past a node: it is the publisher's own node, or
    the client answers for it. *)
Definition weather_passes (apikey : string) (node : standard.Node) : Prop :=
  standard.ID node = PublisherNodeID \/
  exists currentWeather,
    GetCurrentWeather apikey (standard.ID node) (language_of node) = Ok currentWeather.

(** What a node contributes to a forecast cycle that is not aborted before
    or at it. *)
Definition forecast_calls (apikey : string) (node : standard.Node)
    : list publisher.CycleCall :=
  if String.eqb (standard.ID node) PublisherNodeID then []
  else match GetDailyForecast apikey (standard.ID node) (language_of node) with
       | Ok {| ForecastList := Some forecasts |} => UpdateForecast_values node forecasts
       | _ => []
       end.

(** The forecast cycle gets past a node: it is the publisher's own node, or
    the client answers for it with a list that is not [nil]. *)
Definition forecast_passes (apikey : string) (node : standard.Node) : Prop :=
  standard.ID node = PublisherNodeID \/
  exists forecasts,
    GetDailyForecast apikey (standard.ID node) (language_of node)
    = Ok {| ForecastList := Some forecasts |}.

End Adapter.

(** The adapter and the registry it publishes to, for the configuration
    handler. *)
Record World : Type := {
  app : WeatherApp;
  pub : publisher.PublisherState
}.

(** OnNodeConfigHandler handles requests to update node configuration: it
    returns [nil] ([None]). *)
Definition OnNodeConfigHandler (node : standard.Node) (config : standard.AttrMap)
    (world : World) : option standard.AttrMap * World :=
  (None, world).

(** ** A deployment: two cities in zone [home] *)
Module Scenario.

Definition publisherNodeID : string := "$publisher".

Definition weatherApp : WeatherApp :=
  {| Cities := ["Amsterdam"; "Berlin"]; APIKey := "secret";
     PublisherID := PublisherID_default |}.

Definition pubNode : standard.Node :=
  standard.NewNode "home" PublisherID_default publisherNodeID.

(** The registry before provisioning. *)
Definition emptyPub : publisher.PublisherState :=
  {| publisher.PublisherNode := pubNode;
     publisher.Nodes := ∅;
     publisher.Outputs := ∅ |}.

(** The city nodes as provisioned, with their language entry. *)
Definition amsterdam : standard.Node :=
  publisher.with_config lc (cityNode weatherApp "home" "Amsterdam").

Definition berlin : standard.Node :=
  publisher.with_config lc (cityNode weatherApp "home" "Berlin").

(** A registry in which Amsterdam was configured to report in Dutch. *)
Definition dutch : standard.ConfigAttr :=
  {| standard.ConfigID := "language";
     standard.ConfigDataType := standard.DataTypeEnum;
     standard.Description := "Reporting language";
     standard.Default := "en";
     standard.Value := "nl" |}.

Definition configuredPub : publisher.PublisherState :=
  {| publisher.PublisherNode := pubNode;
     publisher.Nodes :=
       {[ publisher.node_addr amsterdam :=
            publisher.with_config dutch (cityNode weatherApp "home" "Amsterdam") ]};
     publisher.Outputs := ∅ |}.

(** 0.002, as the nearest float64. *)
Definition two_thousandths : float := 0x1.0624dd2f1a9fcp-9%float.

Definition drizzle : CurrentWeather :=
  {| Weather := [ {| Description := "light rain" |}; {| Description := "mist" |} ];
     Main := {| Temperature := 11.25%float; Humidity := 87; Pressure := 1013.5%float |};
     Wind := {| Speed := 4.5%float; Heading := 270%float |};
     Rain := {| LastHour := two_thousandths |};
     Snow := {| LastHour := 0%float |} |}.

(** A response without weather descriptions. *)
Definition undescribed : CurrentWeather :=
  {| Weather := [];
     Main := {| Temperature := 3%float; Humidity := 60; Pressure := 1020%float |};
     Wind := {| Speed := 0%float; Heading := 0%float |};
     Rain := {| LastHour := 0%float |};
     Snow := {| LastHour := 0%float |} |}.

(** Weather clients: one that answers, one that is down, one that fails
    for Berlin only, one without descriptions. *)
Definition clientUp (apikey city language : string) : result CurrentWeather :=
  Ok drizzle.

Definition clientDown (apikey city language : string) : result CurrentWeather :=
  Err "connection refused".

Definition clientBerlinDown (apikey city language : string) : result CurrentWeather :=
  if String.eqb city "Berlin" then Err "city not found" else Ok drizzle.

Definition clientUndescribed (apikey city language : string) : result CurrentWeather :=
  Ok undescribed.

Definition monday : Forecast :=
  {| Date := 1600000000; DayWeather := [ {| Description := "clear sky" |} ];
     Temp := {| Max := 21.5%float; Min := 12.25%float |} |}.

Definition tuesday : Forecast :=
  {| Date := 1600086400; DayWeather := [];
     Temp := {| Max := 19%float; Min := 9.5%float |} |}.

(** Forecast clients: a two-day forecast, a failure, a response without a
    list, and a response whose list is present and empty. *)
Definition forecastUp (apikey city language : string) : result DailyForecast :=
  Ok {| ForecastList := Some [monday; tuesday] |}.

Definition forecastDown (apikey city language : string) : result DailyForecast :=
  Err "payment required".

Definition forecastNil (apikey city language : string) : result DailyForecast :=
  Ok {| ForecastList := None |}.

Definition forecastEmpty (apikey city language : string) : result DailyForecast :=
  Ok {| ForecastList := Some [] |}.

(** No list for Berlin, a two-day forecast elsewhere. *)
Definition forecastBerlinNil (apikey city language : string) : result DailyForecast :=
  if String.eqb city "Berlin" then Ok {| ForecastList := None |}
  else Ok {| ForecastList := Some [monday; tuesday] |}.

End Scenario.

(** ** Statements about a cycle *)

(** In a list of cycle calls, [value] is written to the output
    [(ioType, instance)] of [node], and nothing else is. *)
Definition value_written (calls : list publisher.CycleCall) (node : standard.Node)
    (ioType : standard.IOType) (instance value : string) : Prop :=
  In (publisher.UpdateOutputValue node ioType instance value) calls /\
  forall other,
    In (publisher.UpdateOutputValue node ioType instance other) calls ->
    other = value.

(** ** Statements about a forecast *)

(** The history values of one forecast entry. *)
Definition weather_entry (forecast : Forecast) : standard.HistoryValue :=
  {| standard.Timestamp := int64 (Date forecast);
     standard.HistValue := first_description (DayWeather forecast) |}.

Definition max_entry (forecast : Forecast) : standard.HistoryValue :=
  {| standard.Timestamp := int64 (Date forecast);
     standard.HistValue := fmt.Sprintf_1f (Max (Temp forecast)) |}.

Definition min_entry (forecast : Forecast) : standard.HistoryValue :=
  {| standard.Timestamp := int64 (Date forecast);
     standard.HistValue := fmt.Sprintf_1f (Min (Temp forecast)) |}.

(** The failures of a forecast fetch as the specification lists them: the
    client returned an error, or the forecast list is absent or empty. *)
Definition spec_forecast_failure (answer : result DailyForecast) : Prop :=
  match answer with
  | Err _ => True
  | Ok dailyForecast =>
      ForecastList dailyForecast = None \/ ForecastList dailyForecast = Some []
  end.

(** ** Statements about the registry *)

(** A provisioning call has nothing left to do in a registry: the node is
    registered, the registered node has a configuration entry of that name,
    the output is registered. *)
Definition settled (call : publisher.ProvisionCall) (st : publisher.PublisherState)
    : Prop :=
  match call with
  | publisher.UpdateNode node =>
      is_Some (publisher.Nodes st !! publisher.node_addr node)
  | publisher.UpdateNodeConfig node config =>
      exists registered,
        publisher.Nodes st !! publisher.node_addr node = Some registered /\
        is_Some (standard.Config registered !! standard.ConfigID config)
  | publisher.NewOutput node ioType instance =>
      is_Some (publisher.Outputs st !! publisher.output_addr node ioType instance)
  end.

(** A provisioning call can take effect: a configuration entry needs its
    node registered. *)
Definition ready (call : publisher.ProvisionCall) (st : publisher.PublisherState)
    : Prop :=
  match call with
  | publisher.UpdateNodeConfig node _ =>
      is_Some (publisher.Nodes st !! publisher.node_addr node)
  | _ => True
  end.

(** ** Reading a list of calls *)

(** The node a cycle call is about; the log line is about none. *)
Definition call_node (call : publisher.CycleCall) : option standard.Node :=
  match call with
  | publisher.LoggerInfo _ => None
  | publisher.SetErrorStatus node _ => Some node
  | publisher.UpdateOutputValue node _ _ _ => Some node
  | publisher.UpdateForecast node _ _ _ => Some node
  end.

Definition is_error_status (call : publisher.CycleCall) : bool :=
  match call with
  | publisher.SetErrorStatus _ _ => true
  | _ => false
  end.

Definition is_output_value (call : publisher.CycleCall) : bool :=
  match call with
  | publisher.UpdateOutputValue _ _ _ _ => true
  | _ => false
  end.

Definition is_forecast (call : publisher.CycleCall) : bool :=
  match call with
  | publisher.UpdateForecast _ _ _ _ => true
  | _ => false
  end.

(** The nodes of a list other than the publisher's own. *)
Definition city_nodes (PublisherNodeID : string) (nodes : list standard.Node)
    : list standard.Node :=
  List.filter (fun node => negb (String.eqb (standard.ID node) PublisherNodeID)) nodes.

(** The node a provisioning call is about. *)
Definition provision_node (call : publisher.ProvisionCall) : standard.Node :=
  match call with
  | publisher.UpdateNode node => node
  | publisher.UpdateNodeConfig node _ => node
  | publisher.NewOutput node _ _ => node
  end.

Definition is_update_node (call : publisher.ProvisionCall) : bool :=
  match call with
  | publisher.UpdateNode _ => true
  | _ => false
  end.

Definition is_update_node_config (call : publisher.ProvisionCall) : bool :=
  match call with
  | publisher.UpdateNodeConfig _ _ => true
  | _ => false
  end.

Definition is_new_output (call : publisher.ProvisionCall) : bool :=
  match call with
  | publisher.NewOutput _ _ _ => true
  | _ => false
  end.

(** The outputs [PublishNodes] declares for a city, in the order of the
    source. *)
Definition city_outputs : list (standard.IOType * string) :=
  [ (standard.IOTypeWeather, CurrentWeatherInst);
    (standard.IOTypeTemperature, CurrentWeatherInst);
    (standard.IOTypeHumidity, CurrentWeatherInst);
    (standard.IOTypeAtmosphericPressure, CurrentWeatherInst);
    (standard.IOTypeWindHeading, CurrentWeatherInst);
    (standard.IOTypeWindSpeed, CurrentWeatherInst);
    (standard.IOTypeRain, LastHourWeatherInst);
    (standard.IOTypeSnow, LastHourWeatherInst);
    (standard.IOTypeWeather, ForecastWeatherInst);
    (standard.IOTypeTemperature, "max");
    (standard.IOTypeAtmosphericPressure, "min") ].

(** ** Formatting, on examples *)

Example Sprintf_1f_half_even : fmt.Sprintf_1f 0.25%float = "0.2".
Proof. vm_compute. reflexivity. Qed.

Example Sprintf_1f_round_up : fmt.Sprintf_1f (-12.375)%float = "-12.4".
Proof. vm_compute. reflexivity. Qed.

Example Sprintf_1f_small : fmt.Sprintf_1f 0.03125%float = "0.0".
Proof. vm_compute. reflexivity. Qed.

Example Sprintf_1f_negative_zero : fmt.Sprintf_1f (-0)%float = "-0.0".
Proof. vm_compute. reflexivity. Qed.

Example Sprintf_0f_tie : fmt.Sprintf_0f 1013.5%float = "1014".
Proof. vm_compute. reflexivity. Qed.

Example Sprintf_0f_tie_even : fmt.Sprintf_0f 2.5%float = "2".
Proof. vm_compute. reflexivity. Qed.

Example Sprintf_1f_infinity : fmt.Sprintf_1f infinity = "+Inf".
Proof. vm_compute. reflexivity. Qed.

Example Sprintf_1f_nan : fmt.Sprintf_1f nan = "NaN".
Proof. vm_compute. reflexivity. Qed.

Example Sprintf_d_negative : fmt.Sprintf_d (-40) = "-40".
Proof. vm_compute. reflexivity. Qed.

(** A scaled value is never negative, so [fmt.digits] prints all of it. *)
Lemma round_half_even_nonneg num den :
  0 <= num -> 0 < den -> 0 <= fmt.round_half_even num den.
Proof.
  intros Hnum Hden. unfold fmt.round_half_even.
  assert (0 <= num / den) by (apply Z.div_pos; lia).
  destruct (den <? 2 * (num mod den)); [lia|].
  destruct ((den =? 2 * (num mod den)) && Z.odd (num / den)); lia.
Qed.

Lemma scaled_nonneg prec m e : 0 <= fmt.scaled prec m e.
Proof.
  unfold fmt.scaled.
  assert (0 <= Z.pos m * 10 ^ Z.of_nat prec) by (apply Z.mul_nonneg_nonneg; lia).
  destruct (0 <=? e) eqn:He.
  - apply Z.mul_nonneg_nonneg; [assumption|]. apply Z.pow_nonneg. lia.
  - apply round_half_even_nonneg; [assumption|].
    apply Z.pow_pos_nonneg; lia.
Qed.

(** Rounding is to a nearest integer: twice the distance between
    [q * den] and [num] is at most [den]. *)
Lemma round_half_even_nearest num den :
  0 < den ->
  2 * Z.abs (fmt.round_half_even num den * den - num) <= den.
Proof.
  intros Hden. unfold fmt.round_half_even.
  pose proof (Z.div_mod num den ltac:(lia)) as Hdiv.
  pose proof (Z.mod_pos_bound num den Hden) as Hmod.
  destruct (den <? 2 * (num mod den)) eqn:Hhigh.
  - apply Z.ltb_lt in Hhigh. nia.
  - apply Z.ltb_ge in Hhigh.
    destruct ((den =? 2 * (num mod den)) && Z.odd (num / den)) eqn:Htie.
    + apply andb_true_iff in Htie. destruct Htie as [Htie _].
      apply Z.eqb_eq in Htie. nia.
    + nia.
Qed.

(** ** The deployment, provisioned *)

Example Scenario_provisioned_nodes :
  size (publisher.Nodes (PublishNodes Scenario.weatherApp Scenario.emptyPub)) = 2%nat
  /\ publisher.Nodes (PublishNodes Scenario.weatherApp Scenario.emptyPub)
       !! ("home", "openweathermap", "Berlin")
     = Some Scenario.berlin.
Proof. split; vm_compute; reflexivity. Qed.

Example Scenario_provisioned_outputs :
  size (publisher.Outputs (PublishNodes Scenario.weatherApp Scenario.emptyPub)) = 22%nat
  /\ size (publisher.outputs_of ("home", "openweathermap", "Berlin")
             (PublishNodes Scenario.weatherApp Scenario.emptyPub)) = 11%nat.
Proof. split; vm_compute; reflexivity. Qed.

Example Scenario_provisioned_amsterdam :
  publisher.Nodes (PublishNodes Scenario.weatherApp Scenario.emptyPub)
    !! ("home", "openweathermap", "Amsterdam")
  = Some Scenario.amsterdam
  /\ language_of Scenario.amsterdam = "en".
Proof. split; vm_compute; reflexivity. Qed.

(** ** The update cycle *)

Section UpdateWeatherProperties.

Variable PublisherNodeID : string.
Variable GetCurrentWeather : string -> string -> string -> result CurrentWeather.

Local Abbreviation loop := (UpdateWeather_loop PublisherNodeID GetCurrentWeather).
Local Abbreviation passes := (weather_passes PublisherNodeID GetCurrentWeather).
Local Abbreviation calls_of := (weather_calls PublisherNodeID GetCurrentWeather).

Lemma UpdateWeather_loop_reserved apikey node rest :
  standard.ID node = PublisherNodeID ->
  loop apikey (node :: rest) = loop apikey rest.
Proof.
  intros Hid. simpl.
  apply String.eqb_eq in Hid. rewrite Hid. reflexivity.
Qed.

Lemma UpdateWeather_loop_ok apikey node rest currentWeather :
  standard.ID node <> PublisherNodeID ->
  GetCurrentWeather apikey (standard.ID node) (language_of node) = Ok currentWeather ->
  loop apikey (node :: rest)
  = (UpdateWeather_values node currentWeather ++ loop apikey rest)%list.
Proof.
  intros Hid Hget. cbn [UpdateWeather_loop].
  apply String.eqb_neq in Hid. rewrite Hid, Hget. reflexivity.
Qed.

Lemma UpdateWeather_loop_err apikey node rest err :
  standard.ID node <> PublisherNodeID ->
  GetCurrentWeather apikey (standard.ID node) (language_of node) = Err err ->
  loop apikey (node :: rest)
  = [ publisher.SetErrorStatus node "Current weather not available" ].
Proof.
  intros Hid Hget. cbn [UpdateWeather_loop].
  apply String.eqb_neq in Hid. rewrite Hid, Hget. reflexivity.
Qed.

Lemma weather_calls_reserved apikey node :
  standard.ID node = PublisherNodeID -> calls_of apikey node = [].
Proof.
  intros Hid. unfold weather_calls.
  apply String.eqb_eq in Hid. rewrite Hid. reflexivity.
Qed.

Lemma weather_calls_ok apikey node currentWeather :
  standard.ID node <> PublisherNodeID ->
  GetCurrentWeather apikey (standard.ID node) (language_of node) = Ok currentWeather ->
  calls_of apikey node = UpdateWeather_values node currentWeather.
Proof.
  intros Hid Hget. unfold weather_calls.
  apply String.eqb_neq in Hid. rewrite Hid, Hget. reflexivity.
Qed.

(** The loop runs through a prefix of nodes it gets past, and goes on with
    the rest. *)
Lemma UpdateWeather_loop_app apikey pre rest :
  Forall (passes apikey) pre ->
  loop apikey (pre ++ rest)
  = (flat_map (calls_of apikey) pre ++ loop apikey rest)%list.
Proof.
  induction 1 as [|node pre Hnode _ IH]; [reflexivity|].
  change ((node :: pre) ++ rest)%list with (node :: (pre ++ rest))%list.
  cbn [flat_map].
  destruct (String.eqb_spec (standard.ID node) PublisherNodeID) as [Hid|Hid].
  - rewrite UpdateWeather_loop_reserved, weather_calls_reserved by assumption.
    exact IH.
  - destruct Hnode as [Hres|[currentWeather Hget]]; [contradiction|].
    rewrite (UpdateWeather_loop_ok _ _ _ _ Hid Hget).
    rewrite (weather_calls_ok _ _ _ Hid Hget), IH.
    rewrite <- app_assoc. reflexivity.
Qed.

(** A node the cycle gets past contributes output values only. *)
Lemma weather_calls_values apikey node call :
  In call (calls_of apikey node) ->
  exists currentWeather,
    standard.ID node <> PublisherNodeID /\
    GetCurrentWeather apikey (standard.ID node) (language_of node) = Ok currentWeather /\
    In call (UpdateWeather_values node currentWeather).
Proof.
  unfold weather_calls.
  destruct (String.eqb_spec (standard.ID node) PublisherNodeID) as [Hid|Hid];
    [intros []|].
  destruct (GetCurrentWeather _ _ _) as [currentWeather|err]; [|intros []].
  intros Hin. exists currentWeather. auto.
Qed.

(** Every value in [UpdateWeather_values] is written to the node it is
    computed for. *)
Lemma UpdateWeather_values_node node currentWeather other ioType instance value :
  In (publisher.UpdateOutputValue other ioType instance value)
     (UpdateWeather_values node currentWeather) ->
  other = node.
Proof.
  cbn [UpdateWeather_values In].
  intros H; repeat (destruct H as [H|H]); try contradiction; congruence.
Qed.

(** [UpdateWeather_values] writes each output once. *)
Lemma UpdateWeather_values_functional node currentWeather ioType instance v1 v2 :
  In (publisher.UpdateOutputValue node ioType instance v1)
     (UpdateWeather_values node currentWeather) ->
  In (publisher.UpdateOutputValue node ioType instance v2)
     (UpdateWeather_values node currentWeather) ->
  v1 = v2.
Proof.
  cbn [UpdateWeather_values In].
  intros H1 H2.
  repeat (destruct H1 as [H1|H1]); try contradiction;
    repeat (destruct H2 as [H2|H2]); try contradiction;
    congruence.
Qed.

(** Whatever the loop writes for a node comes from the client's answer for
    that node. *)
Lemma UpdateWeather_loop_sound apikey nodes node ioType instance value :
  In (publisher.UpdateOutputValue node ioType instance value) (loop apikey nodes) ->
  exists currentWeather,
    GetCurrentWeather apikey (standard.ID node) (language_of node) = Ok currentWeather /\
    In (publisher.UpdateOutputValue node ioType instance value)
       (UpdateWeather_values node currentWeather).
Proof.
  induction nodes as [|first rest IH]; [intros []|].
  destruct (String.eqb_spec (standard.ID first) PublisherNodeID) as [Hid|Hid].
  - rewrite UpdateWeather_loop_reserved by assumption. exact IH.
  - destruct (GetCurrentWeather apikey (standard.ID first) (language_of first))
      as [currentWeather|err] eqn:Hget.
    + rewrite (UpdateWeather_loop_ok _ _ _ _ Hid Hget).
      intros Hin. apply in_app_or in Hin. destruct Hin as [Hin|Hin]; [|auto].
      assert (node = first) as -> by (eapply UpdateWeather_values_node; eassumption).
      exists currentWeather. auto.
    + rewrite (UpdateWeather_loop_err _ _ _ _ Hid Hget).
      intros [Hin|[]]. discriminate.
Qed.

(** In a cycle that reaches a node and gets an answer for it, each of the
    node's values is the one computed from that answer. *)
Lemma UpdateWeather_value_written weatherApp pre node rest currentWeather
    ioType instance value :
  Forall (passes (APIKey weatherApp)) pre ->
  standard.ID node <> PublisherNodeID ->
  GetCurrentWeather (APIKey weatherApp) (standard.ID node) (language_of node)
  = Ok currentWeather ->
  In (publisher.UpdateOutputValue node ioType instance value)
     (UpdateWeather_values node currentWeather) ->
  value_written
    (UpdateWeather PublisherNodeID GetCurrentWeather weatherApp (pre ++ node :: rest))
    node ioType instance value.
Proof.
  intros Hpre Hid Hget Hin. unfold UpdateWeather. split.
  - right. rewrite UpdateWeather_loop_app by assumption.
    rewrite (UpdateWeather_loop_ok _ _ _ _ Hid Hget).
    apply in_or_app; right. apply in_or_app; left. exact Hin.
  - intros other [Hlog|Hother]; [discriminate|].
    apply UpdateWeather_loop_sound in Hother.
    destruct Hother as (currentWeather' & Hget' & Hin').
    rewrite Hget in Hget'. injection Hget' as <-.
    eapply UpdateWeather_values_functional; eassumption.
Qed.

End UpdateWeatherProperties.

(** ** The update cycle: failures *)

(** C2: when the weather client fails for the first city the cycle
    processes (only the publisher's own node may come before it), the cycle
    consists of the log line and the error status "Current weather not
    available" on that city's node; no output value of any node is
    written, whatever nodes follow. *)
Theorem UpdateWeather_first_city_error
    (PublisherNodeID : string)
    (GetCurrentWeather : string -> string -> string -> result CurrentWeather)
    (weatherApp : WeatherApp) (pre : list standard.Node) (node : standard.Node)
    (rest : list standard.Node) (err : string) :
  Forall (fun before => standard.ID before = PublisherNodeID) pre ->
  standard.ID node <> PublisherNodeID ->
  GetCurrentWeather (APIKey weatherApp) (standard.ID node) (language_of node) = Err err ->
  UpdateWeather PublisherNodeID GetCurrentWeather weatherApp (pre ++ node :: rest)
  = [ publisher.LoggerInfo "UpdateWeather";
      publisher.SetErrorStatus node "Current weather not available" ]
  /\ forall other ioType instance value,
       ~ In (publisher.UpdateOutputValue other ioType instance value)
            (UpdateWeather PublisherNodeID GetCurrentWeather weatherApp
               (pre ++ node :: rest)).
Proof.
  intros Hpre Hid Hget.
  assert (UpdateWeather PublisherNodeID GetCurrentWeather weatherApp (pre ++ node :: rest)
          = [ publisher.LoggerInfo "UpdateWeather";
              publisher.SetErrorStatus node "Current weather not available" ]) as Heq.
  { unfold UpdateWeather. f_equal.
    rewrite UpdateWeather_loop_app.
    - rewrite (UpdateWeather_loop_err _ _ _ _ _ _ Hid Hget).
      induction Hpre as [|before pre Hbefore _ IH]; [reflexivity|].
      cbn [flat_map]. rewrite weather_calls_reserved by assumption. exact IH.
    - eapply Forall_impl; [exact Hpre|]. intros before Hbefore. left. exact Hbefore. }
  split; [exact Heq|].
  intros other ioType instance value. rewrite Heq.
  intros [H|[H|[]]]; discriminate.
Qed.

Lemma UpdateWeather_first_city_error_witness :
  UpdateWeather Scenario.publisherNodeID Scenario.clientDown Scenario.weatherApp
    ([Scenario.pubNode] ++ Scenario.amsterdam :: [Scenario.berlin])
  = [ publisher.LoggerInfo "UpdateWeather";
      publisher.SetErrorStatus Scenario.amsterdam "Current weather not available" ]
  /\ forall other ioType instance value,
       ~ In (publisher.UpdateOutputValue other ioType instance value)
            (UpdateWeather Scenario.publisherNodeID Scenario.clientDown
               Scenario.weatherApp
               ([Scenario.pubNode] ++ Scenario.amsterdam :: [Scenario.berlin])).
Proof.
  apply (UpdateWeather_first_city_error Scenario.publisherNodeID Scenario.clientDown
           Scenario.weatherApp [Scenario.pubNode] Scenario.amsterdam
           [Scenario.berlin] "connection refused").
  - repeat constructor.
  - discriminate.
  - reflexivity.
Defined.

(** C10: the update cycle is not atomic.  When the weather client fails for
    a node that comes after nodes the cycle got past, the cycle consists of
    the log line, the output values of the earlier nodes, and the error
    status on the failing node: the values of every earlier city are
    written and stay, the failing node alone gets an error status, and the
    nodes after it contribute nothing. *)
Theorem UpdateWeather_mid_batch_failure
    (PublisherNodeID : string)
    (GetCurrentWeather : string -> string -> string -> result CurrentWeather)
    (weatherApp : WeatherApp) (pre : list standard.Node) (node : standard.Node)
    (rest : list standard.Node) (err : string) :
  Forall (weather_passes PublisherNodeID GetCurrentWeather (APIKey weatherApp)) pre ->
  standard.ID node <> PublisherNodeID ->
  GetCurrentWeather (APIKey weatherApp) (standard.ID node) (language_of node) = Err err ->
  UpdateWeather PublisherNodeID GetCurrentWeather weatherApp (pre ++ node :: rest)
  = (publisher.LoggerInfo "UpdateWeather"
     :: flat_map (weather_calls PublisherNodeID GetCurrentWeather (APIKey weatherApp)) pre
     ++ [ publisher.SetErrorStatus node "Current weather not available" ])%list
  /\ (forall earlier currentWeather,
        In earlier pre ->
        standard.ID earlier <> PublisherNodeID ->
        GetCurrentWeather (APIKey weatherApp) (standard.ID earlier) (language_of earlier)
        = Ok currentWeather ->
        incl (UpdateWeather_values earlier currentWeather)
             (UpdateWeather PublisherNodeID GetCurrentWeather weatherApp
                (pre ++ node :: rest)))
  /\ (forall other msg,
        In (publisher.SetErrorStatus other msg)
           (UpdateWeather PublisherNodeID GetCurrentWeather weatherApp
              (pre ++ node :: rest)) ->
        other = node /\ msg = "Current weather not available").
Proof.
  intros Hpre Hid Hget.
  assert (UpdateWeather PublisherNodeID GetCurrentWeather weatherApp (pre ++ node :: rest)
          = (publisher.LoggerInfo "UpdateWeather"
             :: flat_map (weather_calls PublisherNodeID GetCurrentWeather
                            (APIKey weatherApp)) pre
             ++ [ publisher.SetErrorStatus node "Current weather not available" ])%list)
    as Heq.
  { unfold UpdateWeather. f_equal.
    rewrite UpdateWeather_loop_app by assumption.
    rewrite (UpdateWeather_loop_err _ _ _ _ _ _ Hid Hget). reflexivity. }
  rewrite Heq. split; [reflexivity|]. split.
  - intros earlier currentWeather Hin Hearlier Hok call Hcall.
    right. apply in_or_app; left.
    apply in_flat_map. exists earlier. split; [exact Hin|].
    rewrite (weather_calls_ok _ _ _ _ _ Hearlier Hok). exact Hcall.
  - intros other msg [Hlog|Hin]; [discriminate|].
    apply in_app_or in Hin. destruct Hin as [Hin|[Hin|[]]].
    + apply in_flat_map in Hin. destruct Hin as (earlier & _ & Hin).
      apply weather_calls_values in Hin.
      destruct Hin as (currentWeather & _ & _ & Hin).
      cbn [UpdateWeather_values In] in Hin.
      repeat (destruct Hin as [Hin|Hin]); try contradiction; discriminate.
    + injection Hin as <- <-. split; reflexivity.
Qed.

Lemma UpdateWeather_mid_batch_failure_witness :
  UpdateWeather Scenario.publisherNodeID Scenario.clientBerlinDown Scenario.weatherApp
    ([Scenario.pubNode; Scenario.amsterdam] ++ Scenario.berlin :: [Scenario.amsterdam])
  = [ publisher.LoggerInfo "UpdateWeather";
      publisher.UpdateOutputValue Scenario.amsterdam standard.IOTypeWeather "current" "light rain";
      publisher.UpdateOutputValue Scenario.amsterdam standard.IOTypeTemperature "current" "11.2";
      publisher.UpdateOutputValue Scenario.amsterdam standard.IOTypeHumidity "current" "87";
      publisher.UpdateOutputValue Scenario.amsterdam standard.IOTypeAtmosphericPressure "current" "1014";
      publisher.UpdateOutputValue Scenario.amsterdam standard.IOTypeWindSpeed "current" "4.5";
      publisher.UpdateOutputValue Scenario.amsterdam standard.IOTypeWindHeading "current" "270";
      publisher.UpdateOutputValue Scenario.amsterdam standard.IOTypeRain "hour" "2.0";
      publisher.UpdateOutputValue Scenario.amsterdam standard.IOTypeSnow "hour" "0.0";
      publisher.SetErrorStatus Scenario.berlin "Current weather not available" ].
Proof.
  refine (proj1 (UpdateWeather_mid_batch_failure Scenario.publisherNodeID
                   Scenario.clientBerlinDown Scenario.weatherApp
                   [Scenario.pubNode; Scenario.amsterdam] Scenario.berlin
                   [Scenario.amsterdam] "city not found" _ _ _)).
  - constructor; [left; reflexivity|].
    constructor; [right; exists Scenario.drizzle; reflexivity|].
    constructor.
  - discriminate.
  - reflexivity.
Defined.

(** ** The update cycle: values *)

(** C5: in a cycle that reaches a node and gets an answer for it, the value
    written to the node's (weather, "current") output is the empty string
    when the answer's list of weather descriptions is empty, and the
    description of the first entry of that list otherwise. *)
Theorem UpdateWeather_weather_description
    (PublisherNodeID : string)
    (GetCurrentWeather : string -> string -> string -> result CurrentWeather)
    (weatherApp : WeatherApp) (pre : list standard.Node) (node : standard.Node)
    (rest : list standard.Node) (currentWeather : CurrentWeather) :
  Forall (weather_passes PublisherNodeID GetCurrentWeather (APIKey weatherApp)) pre ->
  standard.ID node <> PublisherNodeID ->
  GetCurrentWeather (APIKey weatherApp) (standard.ID node) (language_of node)
  = Ok currentWeather ->
  (Weather currentWeather = [] ->
   value_written
     (UpdateWeather PublisherNodeID GetCurrentWeather weatherApp (pre ++ node :: rest))
     node standard.IOTypeWeather CurrentWeatherInst "")
  /\ (forall first others,
        Weather currentWeather = first :: others ->
        value_written
          (UpdateWeather PublisherNodeID GetCurrentWeather weatherApp
             (pre ++ node :: rest))
          node standard.IOTypeWeather CurrentWeatherInst (Description first)).
Proof.
  intros Hpre Hid Hget.
  assert (value_written
            (UpdateWeather PublisherNodeID GetCurrentWeather weatherApp
               (pre ++ node :: rest))
            node standard.IOTypeWeather CurrentWeatherInst
            (first_description (Weather currentWeather))) as Hwritten.
  { eapply UpdateWeather_value_written; try eassumption. left. reflexivity. }
  split.
  - intros Hempty. rewrite Hempty in Hwritten. exact Hwritten.
  - intros first others Hcons. rewrite Hcons in Hwritten. exact Hwritten.
Qed.

Lemma UpdateWeather_weather_description_witness :
  value_written
    (UpdateWeather Scenario.publisherNodeID Scenario.clientUndescribed
       Scenario.weatherApp ([Scenario.pubNode] ++ Scenario.amsterdam :: [Scenario.berlin]))
    Scenario.amsterdam standard.IOTypeWeather CurrentWeatherInst "".
Proof.
  refine (proj1 (UpdateWeather_weather_description Scenario.publisherNodeID
                   Scenario.clientUndescribed Scenario.weatherApp
                   [Scenario.pubNode] Scenario.amsterdam [Scenario.berlin]
                   Scenario.undescribed _ _ _) _).
  - constructor; [left; reflexivity|constructor].
  - discriminate.
  - reflexivity.
  - reflexivity.
Defined.

(** C6: in a cycle that reaches a node and gets an answer for it with
    rain.lastHour = 0.002 (the float64 nearest to it), the value written to
    the node's (rain, "hour") output is "2.0": the reading times 1000, with
    one decimal. *)
Theorem UpdateWeather_rain_last_hour
    (PublisherNodeID : string)
    (GetCurrentWeather : string -> string -> string -> result CurrentWeather)
    (weatherApp : WeatherApp) (pre : list standard.Node) (node : standard.Node)
    (rest : list standard.Node) (currentWeather : CurrentWeather) :
  Forall (weather_passes PublisherNodeID GetCurrentWeather (APIKey weatherApp)) pre ->
  standard.ID node <> PublisherNodeID ->
  GetCurrentWeather (APIKey weatherApp) (standard.ID node) (language_of node)
  = Ok currentWeather ->
  LastHour (Rain currentWeather) = 0x1.0624dd2f1a9fcp-9%float ->
  value_written
    (UpdateWeather PublisherNodeID GetCurrentWeather weatherApp (pre ++ node :: rest))
    node standard.IOTypeRain LastHourWeatherInst "2.0".
Proof.
  intros Hpre Hid Hget Hrain.
  eapply UpdateWeather_value_written; try eassumption.
  cbn [UpdateWeather_values In]. rewrite Hrain.
  do 6 right. left.
  apply f_equal. vm_compute. reflexivity.
Qed.

Lemma UpdateWeather_rain_last_hour_witness :
  value_written
    (UpdateWeather Scenario.publisherNodeID Scenario.clientUp Scenario.weatherApp
       ([Scenario.pubNode; Scenario.berlin] ++ Scenario.amsterdam :: []))
    Scenario.amsterdam standard.IOTypeRain LastHourWeatherInst "2.0".
Proof.
  refine (UpdateWeather_rain_last_hour Scenario.publisherNodeID Scenario.clientUp
            Scenario.weatherApp [Scenario.pubNode; Scenario.berlin]
            Scenario.amsterdam [] Scenario.drizzle _ _ _ _).
  - constructor; [left; reflexivity|].
    constructor; [right; exists Scenario.drizzle; reflexivity|].
    constructor.
  - discriminate.
  - reflexivity.
  - reflexivity.
Defined.

(** The float64 of C6 is the one nearest to 0.002: it is [m * 2^-61] with
    [|m * 2^-61 - 2/1000|] at most half a unit in the last place
    ([2^-62]), and its product with 1000 is exactly 2. *)
Lemma two_thousandths_nearest :
  Prim2SF 0x1.0624dd2f1a9fcp-9%float = S754_finite false 4611686018427388 (-61)
  /\ 2 ^ 52 <= 4611686018427388 < 2 ^ 53
  /\ Z.abs (1000 * 4611686018427388 - 2 * 2 ^ 61) * 2 <= 1000
  /\ (0x1.0624dd2f1a9fcp-9 * 1000)%float = 2%float.
Proof.
  repeat split; vm_compute; congruence.
Qed.

(** ** The forecast cycle *)

Section UpdateForecastProperties.

Variable PublisherNodeID : string.
Variable GetDailyForecast : string -> string -> string -> result DailyForecast.

Local Abbreviation loop := (UpdateForecast_loop PublisherNodeID GetDailyForecast).
Local Abbreviation passes := (forecast_passes PublisherNodeID GetDailyForecast).
Local Abbreviation calls_of := (forecast_calls PublisherNodeID GetDailyForecast).

Lemma UpdateForecast_loop_reserved apikey node rest :
  standard.ID node = PublisherNodeID ->
  loop apikey (node :: rest) = loop apikey rest.
Proof.
  intros Hid. simpl.
  apply String.eqb_eq in Hid. rewrite Hid. reflexivity.
Qed.

Lemma UpdateForecast_loop_ok apikey node rest forecasts :
  standard.ID node <> PublisherNodeID ->
  GetDailyForecast apikey (standard.ID node) (language_of node)
  = Ok {| ForecastList := Some forecasts |} ->
  loop apikey (node :: rest)
  = (UpdateForecast_values node forecasts ++ loop apikey rest)%list.
Proof.
  intros Hid Hget. cbn [UpdateForecast_loop].
  apply String.eqb_neq in Hid. rewrite Hid, Hget. reflexivity.
Qed.

Lemma UpdateForecast_loop_err apikey node rest err :
  standard.ID node <> PublisherNodeID ->
  GetDailyForecast apikey (standard.ID node) (language_of node) = Err err ->
  loop apikey (node :: rest)
  = [ publisher.SetErrorStatus node "Error getting the daily forecast" ].
Proof.
  intros Hid Hget. cbn [UpdateForecast_loop].
  apply String.eqb_neq in Hid. rewrite Hid, Hget. reflexivity.
Qed.

Lemma UpdateForecast_loop_nil apikey node rest :
  standard.ID node <> PublisherNodeID ->
  GetDailyForecast apikey (standard.ID node) (language_of node)
  = Ok {| ForecastList := None |} ->
  loop apikey (node :: rest)
  = [ publisher.SetErrorStatus node "Daily forecast not provided" ].
Proof.
  intros Hid Hget. cbn [UpdateForecast_loop].
  apply String.eqb_neq in Hid. rewrite Hid, Hget. reflexivity.
Qed.

Lemma forecast_calls_reserved apikey node :
  standard.ID node = PublisherNodeID -> calls_of apikey node = [].
Proof.
  intros Hid. unfold forecast_calls.
  apply String.eqb_eq in Hid. rewrite Hid. reflexivity.
Qed.

Lemma forecast_calls_ok apikey node forecasts :
  standard.ID node <> PublisherNodeID ->
  GetDailyForecast apikey (standard.ID node) (language_of node)
  = Ok {| ForecastList := Some forecasts |} ->
  calls_of apikey node = UpdateForecast_values node forecasts.
Proof.
  intros Hid Hget. unfold forecast_calls.
  apply String.eqb_neq in Hid. rewrite Hid, Hget. reflexivity.
Qed.

(** The loop runs through a prefix of nodes it gets past, and goes on with
    the rest. *)
Lemma UpdateForecast_loop_app apikey pre rest :
  Forall (passes apikey) pre ->
  loop apikey (pre ++ rest)
  = (flat_map (calls_of apikey) pre ++ loop apikey rest)%list.
Proof.
  induction 1 as [|node pre Hnode _ IH]; [reflexivity|].
  change ((node :: pre) ++ rest)%list with (node :: (pre ++ rest))%list.
  cbn [flat_map].
  destruct (String.eqb_spec (standard.ID node) PublisherNodeID) as [Hid|Hid].
  - rewrite UpdateForecast_loop_reserved, forecast_calls_reserved by assumption.
    exact IH.
  - destruct Hnode as [Hres|[forecasts Hget]]; [contradiction|].
    rewrite (UpdateForecast_loop_ok _ _ _ _ Hid Hget).
    rewrite (forecast_calls_ok _ _ _ Hid Hget), IH.
    rewrite <- app_assoc. reflexivity.
Qed.

End UpdateForecastProperties.

(** The three accumulators after the loop over the forecast list, from any
    three lists. *)
Lemma forecast_step_fold forecasts weatherList maxTempList minTempList :
  fold_left forecast_step forecasts (weatherList, maxTempList, minTempList)
  = ((weatherList ++ map weather_entry forecasts)%list,
     (maxTempList ++ map max_entry forecasts)%list,
     match last forecasts with
     | None => minTempList
     | Some final =>
         (maxTempList ++ map max_entry forecasts ++ [min_entry final])%list
     end).
Proof.
  revert weatherList maxTempList minTempList.
  induction forecasts as [|forecast forecasts IH]; intros weatherList maxTempList minTempList.
  - cbn. rewrite !app_nil_r. reflexivity.
  - cbn [fold_left]. unfold forecast_step at 2.
    fold (weather_entry forecast) (max_entry forecast) (min_entry forecast).
    rewrite IH. cbn [map].
    destruct forecasts as [|next forecasts].
    + cbn. rewrite <- !app_assoc. reflexivity.
    + change (last (forecast :: next :: forecasts)) with (last (next :: forecasts)).
      destruct (last (next :: forecasts)) as [final|] eqn:Hlast.
      * rewrite <- !app_assoc. reflexivity.
      * apply last_None in Hlast. discriminate.
Qed.

(** C3, as amended: when the cycle reaches a node other than the
    publisher's own and the forecast fetch returns an error, or a response
    whose forecast list is nil, the node is set to an error status and the
    cycle ends there, with nothing for the nodes after it.  A list that is
    present and empty is not a failure: three empty forecasts are published
    for the node and the cycle goes on with the next node. *)
Theorem UpdateForecast_abort_on_error_or_nil
    (PublisherNodeID : string)
    (GetDailyForecast : string -> string -> string -> result DailyForecast)
    (weatherApp : WeatherApp) (pre : list standard.Node) (node : standard.Node)
    (rest : list standard.Node) :
  Forall (forecast_passes PublisherNodeID GetDailyForecast (APIKey weatherApp)) pre ->
  standard.ID node <> PublisherNodeID ->
  (forall err,
     GetDailyForecast (APIKey weatherApp) (standard.ID node) (language_of node)
     = Err err ->
     UpdateForecast PublisherNodeID GetDailyForecast weatherApp (pre ++ node :: rest)
     = (flat_map (forecast_calls PublisherNodeID GetDailyForecast (APIKey weatherApp)) pre
        ++ [ publisher.SetErrorStatus node "Error getting the daily forecast" ])%list)
  /\ (GetDailyForecast (APIKey weatherApp) (standard.ID node) (language_of node)
      = Ok {| ForecastList := None |} ->
      UpdateForecast PublisherNodeID GetDailyForecast weatherApp (pre ++ node :: rest)
      = (flat_map (forecast_calls PublisherNodeID GetDailyForecast (APIKey weatherApp)) pre
         ++ [ publisher.SetErrorStatus node "Daily forecast not provided" ])%list)
  /\ (GetDailyForecast (APIKey weatherApp) (standard.ID node) (language_of node)
      = Ok {| ForecastList := Some [] |} ->
      UpdateForecast PublisherNodeID GetDailyForecast weatherApp (pre ++ node :: rest)
      = (flat_map (forecast_calls PublisherNodeID GetDailyForecast (APIKey weatherApp)) pre
         ++ [ publisher.UpdateForecast node standard.IOTypeWeather ForecastWeatherInst [];
              publisher.UpdateForecast node standard.IOTypeTemperature "max" [];
              publisher.UpdateForecast node standard.IOTypeTemperature "min" [] ]
         ++ UpdateForecast PublisherNodeID GetDailyForecast weatherApp rest)%list).
Proof.
  intros Hpre Hid. unfold UpdateForecast. repeat split.
  - intros err Hget. rewrite UpdateForecast_loop_app by assumption.
    rewrite (UpdateForecast_loop_err _ _ _ _ _ _ Hid Hget). reflexivity.
  - intros Hget. rewrite UpdateForecast_loop_app by assumption.
    rewrite (UpdateForecast_loop_nil _ _ _ _ _ Hid Hget). reflexivity.
  - intros Hget. rewrite UpdateForecast_loop_app by assumption.
    rewrite (UpdateForecast_loop_ok _ _ _ _ _ _ Hid Hget). reflexivity.
Qed.

Lemma UpdateForecast_abort_on_error_or_nil_witness :
  UpdateForecast Scenario.publisherNodeID Scenario.forecastBerlinNil Scenario.weatherApp
    ([Scenario.pubNode; Scenario.amsterdam] ++ Scenario.berlin :: [Scenario.amsterdam])
  = [ publisher.UpdateForecast Scenario.amsterdam standard.IOTypeWeather "forecast"
        [ {| standard.Timestamp := 1600000000; standard.HistValue := "clear sky" |};
          {| standard.Timestamp := 1600086400; standard.HistValue := "" |} ];
      publisher.UpdateForecast Scenario.amsterdam standard.IOTypeTemperature "max"
        [ {| standard.Timestamp := 1600000000; standard.HistValue := "21.5" |};
          {| standard.Timestamp := 1600086400; standard.HistValue := "19.0" |} ];
      publisher.UpdateForecast Scenario.amsterdam standard.IOTypeTemperature "min"
        [ {| standard.Timestamp := 1600000000; standard.HistValue := "21.5" |};
          {| standard.Timestamp := 1600086400; standard.HistValue := "19.0" |};
          {| standard.Timestamp := 1600086400; standard.HistValue := "9.5" |} ];
      publisher.SetErrorStatus Scenario.berlin "Daily forecast not provided" ].
Proof.
  refine (proj1 (proj2 (UpdateForecast_abort_on_error_or_nil Scenario.publisherNodeID
                          Scenario.forecastBerlinNil Scenario.weatherApp
                          [Scenario.pubNode; Scenario.amsterdam] Scenario.berlin
                          [Scenario.amsterdam] _ _)) _).
  - constructor; [left; reflexivity|].
    constructor; [right; exists [Scenario.monday; Scenario.tuesday]; reflexivity|].
    constructor.
  - discriminate.
  - reflexivity.
Defined.

(** C3, as stated, fails: with a forecast list that is present and empty
    the cycle does not end with an error status on the node. *)
Lemma UpdateForecast_empty_list_not_a_failure :
  ~ (forall (PublisherNodeID : string)
       (GetDailyForecast : string -> string -> string -> result DailyForecast)
       (weatherApp : WeatherApp) (pre : list standard.Node) (node : standard.Node)
       (rest : list standard.Node),
       Forall (forecast_passes PublisherNodeID GetDailyForecast (APIKey weatherApp)) pre ->
       standard.ID node <> PublisherNodeID ->
       spec_forecast_failure
         (GetDailyForecast (APIKey weatherApp) (standard.ID node) (language_of node)) ->
       exists msg,
         UpdateForecast PublisherNodeID GetDailyForecast weatherApp (pre ++ node :: rest)
         = (flat_map (forecast_calls PublisherNodeID GetDailyForecast
                        (APIKey weatherApp)) pre
            ++ [ publisher.SetErrorStatus node msg ])%list).
Proof.
  intros claim.
  destruct (claim Scenario.publisherNodeID Scenario.forecastEmpty Scenario.weatherApp
              [] Scenario.amsterdam [Scenario.berlin]) as [msg Hcycle].
  - constructor.
  - discriminate.
  - right. reflexivity.
  - discriminate Hcycle.
Qed.

(** The cycle of the counterexample: empty forecasts for Amsterdam, then
    Berlin is processed as well; no error status is set. *)
Lemma UpdateForecast_empty_list_cycle :
  UpdateForecast Scenario.publisherNodeID Scenario.forecastEmpty Scenario.weatherApp
    [Scenario.amsterdam; Scenario.berlin]
  = [ publisher.UpdateForecast Scenario.amsterdam standard.IOTypeWeather "forecast" [];
      publisher.UpdateForecast Scenario.amsterdam standard.IOTypeTemperature "max" [];
      publisher.UpdateForecast Scenario.amsterdam standard.IOTypeTemperature "min" [];
      publisher.UpdateForecast Scenario.berlin standard.IOTypeWeather "forecast" [];
      publisher.UpdateForecast Scenario.berlin standard.IOTypeTemperature "max" [];
      publisher.UpdateForecast Scenario.berlin standard.IOTypeTemperature "min" [] ].
Proof. reflexivity. Qed.

(** C4: the list published as the (temperature, "min") forecast is built
    from the max-temperature accumulator.  It is empty for an empty
    forecast list; otherwise it is the whole max-temperature list followed
    by one min-temperature entry, that of the last forecast.  The min
    temperatures of the forecasts before the last are in no list. *)
Theorem UpdateForecast_min_list_from_max_accumulator
    (node : standard.Node) (forecasts : list Forecast) :
  UpdateForecast_values node forecasts
  = [ publisher.UpdateForecast node standard.IOTypeWeather ForecastWeatherInst
        (map weather_entry forecasts);
      publisher.UpdateForecast node standard.IOTypeTemperature "max"
        (map max_entry forecasts);
      publisher.UpdateForecast node standard.IOTypeTemperature "min"
        match last forecasts with
        | None => []
        | Some final => (map max_entry forecasts ++ [min_entry final])%list
        end ].
Proof.
  unfold UpdateForecast_values, forecast_lists.
  rewrite forecast_step_fold. reflexivity.
Qed.

(** ** Provisioning: the calls of [PublishNodes] *)

(** The outputs [PublishNodes] declares for a city, whatever the
    configuration: the last one is (atmospheric pressure, "min"). *)
Lemma PublishNodes_city_declares (weatherApp : WeatherApp) (zone city : string) :
  declared_outputs (publisher.node_addr (cityNode weatherApp zone city))
    (PublishNodes_city weatherApp zone city)
  = [ (standard.IOTypeWeather, "current");
      (standard.IOTypeTemperature, "current");
      (standard.IOTypeHumidity, "current");
      (standard.IOTypeAtmosphericPressure, "current");
      (standard.IOTypeWindHeading, "current");
      (standard.IOTypeWindSpeed, "current");
      (standard.IOTypeRain, "hour");
      (standard.IOTypeSnow, "hour");
      (standard.IOTypeWeather, "forecast");
      (standard.IOTypeTemperature, "max");
      (standard.IOTypeAtmosphericPressure, "min") ].
Proof.
  unfold declared_outputs, PublishNodes_city, cityNode. cbn.
  rewrite !decide_True by reflexivity. reflexivity.
Qed.

(** C1, at Cities = ["Amsterdam"; "Berlin"] and an empty registry: the
    outputs [PublishNodes] declares on Amsterdam's node are the eight
    current and last-hour outputs, (weather, "forecast"),
    (temperature, "max") and (atmospheric pressure, "min").  No
    (temperature, "min") output is declared, although [UpdateForecast]
    publishes to it. *)
Theorem PublishNodes_min_output_is_pressure :
  declared_outputs ("home", "openweathermap", "Amsterdam")
    (PublishNodes_calls Scenario.weatherApp Scenario.emptyPub)
  = [ (standard.IOTypeWeather, "current");
      (standard.IOTypeTemperature, "current");
      (standard.IOTypeHumidity, "current");
      (standard.IOTypeAtmosphericPressure, "current");
      (standard.IOTypeWindHeading, "current");
      (standard.IOTypeWindSpeed, "current");
      (standard.IOTypeRain, "hour");
      (standard.IOTypeSnow, "hour");
      (standard.IOTypeWeather, "forecast");
      (standard.IOTypeTemperature, "max");
      (standard.IOTypeAtmosphericPressure, "min") ]
  /\ ~ In (standard.IOTypeTemperature, "min")
          (declared_outputs ("home", "openweathermap", "Amsterdam")
             (PublishNodes_calls Scenario.weatherApp Scenario.emptyPub))
  /\ publisher.Outputs (PublishNodes Scenario.weatherApp Scenario.emptyPub)
       !! ("home", "openweathermap", "Amsterdam", standard.IOTypeTemperature, "min")
     = None
  /\ publisher.Outputs (PublishNodes Scenario.weatherApp Scenario.emptyPub)
       !! ("home", "openweathermap", "Amsterdam", standard.IOTypeAtmosphericPressure, "min")
     = Some (standard.IOTypeAtmosphericPressure, "min").
Proof.
  assert (declared_outputs ("home", "openweathermap", "Amsterdam")
            (PublishNodes_calls Scenario.weatherApp Scenario.emptyPub)
          = [ (standard.IOTypeWeather, "current");
              (standard.IOTypeTemperature, "current");
              (standard.IOTypeHumidity, "current");
              (standard.IOTypeAtmosphericPressure, "current");
              (standard.IOTypeWindHeading, "current");
              (standard.IOTypeWindSpeed, "current");
              (standard.IOTypeRain, "hour");
              (standard.IOTypeSnow, "hour");
              (standard.IOTypeWeather, "forecast");
              (standard.IOTypeTemperature, "max");
              (standard.IOTypeAtmosphericPressure, "min") ]) as Hdeclared
    by (vm_compute; reflexivity).
  split; [exact Hdeclared|]. split; [|split].
  - rewrite Hdeclared. cbn [In].
    intros H. repeat (destruct H as [H|H]); try contradiction; discriminate.
  - vm_compute. reflexivity.
  - vm_compute. reflexivity.
Qed.

(** ** The configuration handler *)

(** C9: for every node and every configuration map, [OnNodeConfigHandler]
    returns nil and leaves the adapter and the publisher's registry as they
    were. *)
Theorem OnNodeConfigHandler_no_op
    (node : standard.Node) (config : standard.AttrMap) (world : World) :
  fst (OnNodeConfigHandler node config world) = None
  /\ app (snd (OnNodeConfigHandler node config world)) = app world
  /\ pub (snd (OnNodeConfigHandler node config world)) = pub world.
Proof.
  repeat split.
Qed.

(** ** Provisioning: the registry *)

Lemma provision_PublisherNode st call :
  publisher.PublisherNode (publisher.provision st call) = publisher.PublisherNode st.
Proof.
  destruct call as [node|node config|node ioType instance]; cbn.
  - unfold publisher.update_node. destruct (_ !! _); reflexivity.
  - unfold publisher.update_node_config.
    destruct (_ !! _) as [registered|]; [|reflexivity].
    destruct (_ !! _); reflexivity.
  - unfold publisher.new_output. destruct (_ !! _); reflexivity.
Qed.

Lemma provision_all_PublisherNode calls st :
  publisher.PublisherNode (publisher.provision_all calls st)
  = publisher.PublisherNode st.
Proof.
  revert st. induction calls as [|call calls IH]; intros st; [reflexivity|].
  cbn. rewrite IH. apply provision_PublisherNode.
Qed.

Lemma provision_all_app calls1 calls2 st :
  publisher.provision_all (calls1 ++ calls2) st
  = publisher.provision_all calls2 (publisher.provision_all calls1 st).
Proof. apply fold_left_app. Qed.

(** A settled call changes nothing. *)
Lemma settled_fix call st :
  settled call st -> publisher.provision st call = st.
Proof.
  destruct call as [node|node config|node ioType instance]; cbn.
  - intros [registered Hnode]. unfold publisher.update_node. rewrite Hnode. reflexivity.
  - intros (registered & Hnode & [entry Hentry]).
    unfold publisher.update_node_config. rewrite Hnode, Hentry. reflexivity.
  - intros [output Houtput]. unfold publisher.new_output. rewrite Houtput. reflexivity.
Qed.

(** A call that is ready is settled once it is made. *)
Lemma provision_settles call st :
  ready call st -> settled call (publisher.provision st call).
Proof.
  destruct call as [node|node config|node ioType instance]; cbn.
  - intros _. unfold publisher.update_node.
    destruct (publisher.Nodes st !! publisher.node_addr node) eqn:Hnode.
    + rewrite Hnode. eauto.
    + cbn. rewrite lookup_insert_eq. eauto.
  - intros [registered Hnode]. unfold publisher.update_node_config. rewrite Hnode.
    destruct (standard.Config registered !! standard.ConfigID config) eqn:Hentry.
    + exists registered. rewrite Hentry. eauto.
    + cbn. eexists. rewrite lookup_insert_eq. split; [reflexivity|].
      cbn. rewrite lookup_insert_eq. eauto.
  - intros _. unfold publisher.new_output.
    destruct (publisher.Outputs st !! publisher.output_addr node ioType instance)
      eqn:Houtput.
    + rewrite Houtput. eauto.
    + cbn. rewrite lookup_insert_eq. eauto.
Qed.

(** Provisioning never removes a node, and a registered node keeps its
    entries. *)
Lemma provision_keeps_entry st call addr registered name :
  publisher.Nodes st !! addr = Some registered ->
  is_Some (standard.Config registered !! name) ->
  exists registered',
    publisher.Nodes (publisher.provision st call) !! addr = Some registered' /\
    is_Some (standard.Config registered' !! name).
Proof.
  intros Hnode Hentry.
  destruct call as [node|node config|node ioType instance]; cbn.
  - unfold publisher.update_node.
    destruct (publisher.Nodes st !! publisher.node_addr node) eqn:Hother; [eauto|].
    cbn. exists registered. split; [|exact Hentry].
    rewrite lookup_insert_ne; [exact Hnode|]. intros Heq. rewrite Heq in Hother. congruence.
  - unfold publisher.update_node_config.
    destruct (publisher.Nodes st !! publisher.node_addr node) as [other|] eqn:Hother;
      [|eauto].
    destruct (standard.Config other !! standard.ConfigID config) eqn:Hconfig; [eauto|].
    cbn. destruct (decide (publisher.node_addr node = addr)) as [<-|Hne].
    + rewrite lookup_insert_eq. eexists. split; [reflexivity|].
      cbn. assert (other = registered) as -> by congruence.
      destruct (decide (standard.ConfigID config = name)) as [<-|Hname].
      * rewrite lookup_insert_eq. eauto.
      * rewrite lookup_insert_ne by assumption. exact Hentry.
    + rewrite lookup_insert_ne by assumption. eauto.
  - unfold publisher.new_output.
    destruct (publisher.Outputs st !! publisher.output_addr node ioType instance);
      cbn; eauto.
Qed.

Lemma provision_keeps_node st call addr :
  is_Some (publisher.Nodes st !! addr) ->
  is_Some (publisher.Nodes (publisher.provision st call) !! addr).
Proof.
  intros Hnode.
  destruct call as [node|node config|node ioType instance]; cbn.
  - unfold publisher.update_node.
    destruct (publisher.Nodes st !! publisher.node_addr node); [exact Hnode|].
    cbn. rewrite lookup_insert_is_Some.
    destruct (decide (publisher.node_addr node = addr)); auto.
  - unfold publisher.update_node_config.
    destruct (publisher.Nodes st !! publisher.node_addr node) as [other|];
      [|exact Hnode].
    destruct (standard.Config other !! standard.ConfigID config); [exact Hnode|].
    cbn. rewrite lookup_insert_is_Some.
    destruct (decide (publisher.node_addr node = addr)); auto.
  - unfold publisher.new_output.
    destruct (publisher.Outputs st !! publisher.output_addr node ioType instance);
      exact Hnode.
Qed.

Lemma provision_keeps_output st call addr :
  is_Some (publisher.Outputs st !! addr) ->
  is_Some (publisher.Outputs (publisher.provision st call) !! addr).
Proof.
  intros Houtput.
  destruct call as [node|node config|node ioType instance]; cbn.
  - unfold publisher.update_node.
    destruct (publisher.Nodes st !! publisher.node_addr node); exact Houtput.
  - unfold publisher.update_node_config.
    destruct (publisher.Nodes st !! publisher.node_addr node) as [other|];
      [|exact Houtput].
    destruct (standard.Config other !! standard.ConfigID config); exact Houtput.
  - unfold publisher.new_output.
    destruct (publisher.Outputs st !! publisher.output_addr node ioType instance);
      [exact Houtput|].
    cbn. rewrite lookup_insert_is_Some.
    destruct (decide (publisher.output_addr node ioType instance = addr)); auto.
Qed.

(** What is settled stays settled. *)
Lemma settled_stable call st next :
  settled call st -> settled call (publisher.provision st next).
Proof.
  destruct call as [node|node config|node ioType instance]; cbn.
  - apply provision_keeps_node.
  - intros (registered & Hnode & Hentry). eapply provision_keeps_entry; eassumption.
  - apply provision_keeps_output.
Qed.

Lemma settled_stable_all call calls st :
  settled call st -> settled call (publisher.provision_all calls st).
Proof.
  revert st. induction calls as [|next calls IH]; intros st Hsettled; [exact Hsettled|].
  cbn. apply IH. apply settled_stable. exact Hsettled.
Qed.

(** A sequence of settled calls changes nothing. *)
Lemma provision_all_settled calls st :
  Forall (fun call => settled call st) calls ->
  publisher.provision_all calls st = st.
Proof.
  induction 1 as [|call calls Hcall _ IH]; [reflexivity|].
  cbn. rewrite (settled_fix _ _ Hcall). exact IH.
Qed.

(** After the calls for a city, each of them is settled. *)
Lemma PublishNodes_city_settled weatherApp zone city st :
  Forall (fun call =>
            settled call
              (publisher.provision_all (PublishNodes_city weatherApp zone city) st))
         (PublishNodes_city weatherApp zone city).
Proof.
  unfold PublishNodes_city. cbn [publisher.provision_all fold_left].
  repeat apply Forall_cons_2; [..|apply Forall_nil_2];
    repeat first [ apply provision_settles | apply settled_stable ];
    try exact I.
  cbn [ready]. apply (provision_settles (publisher.UpdateNode _)). exact I.
Qed.

(** After [PublishNodes], each of its calls is settled. *)
Lemma PublishNodes_calls_settled weatherApp zone cities st :
  Forall (fun call =>
            settled call
              (publisher.provision_all
                 (flat_map (PublishNodes_city weatherApp zone) cities) st))
         (flat_map (PublishNodes_city weatherApp zone) cities).
Proof.
  revert st. induction cities as [|city cities IH]; intros st; [constructor|].
  cbn [flat_map]. rewrite provision_all_app. apply Forall_app. split.
  - eapply Forall_impl; [apply PublishNodes_city_settled|].
    intros call Hcall. apply settled_stable_all. exact Hcall.
  - apply IH.
Qed.

(** Running [PublishNodes] on its own result changes nothing. *)
Lemma PublishNodes_fixpoint weatherApp weatherPub :
  PublishNodes weatherApp (PublishNodes weatherApp weatherPub)
  = PublishNodes weatherApp weatherPub.
Proof.
  unfold PublishNodes at 1. unfold PublishNodes_calls at 1.
  unfold PublishNodes at 1. rewrite provision_all_PublisherNode.
  apply provision_all_settled. apply PublishNodes_calls_settled.
Qed.

(** The calls of [PublishNodes] depend on the city list, the publisher
    identifier and the zone only, and provisioning leaves the zone alone. *)
Lemma PublishNodes_calls_again weatherApp weatherPub :
  PublishNodes_calls weatherApp (PublishNodes weatherApp weatherPub)
  = PublishNodes_calls weatherApp weatherPub.
Proof.
  unfold PublishNodes_calls at 1. unfold PublishNodes.
  rewrite provision_all_PublisherNode. reflexivity.
Qed.

(** C7: invoking [PublishNodes] a second time with the same city list
    makes the same calls as the first time and leaves the registry as the
    first invocation left it: the same nodes, as many of them, and for every
    node the same outputs, as many of them. *)
Theorem PublishNodes_idempotent
    (weatherApp : WeatherApp) (weatherPub : publisher.PublisherState) :
  PublishNodes_calls weatherApp (PublishNodes weatherApp weatherPub)
  = PublishNodes_calls weatherApp weatherPub
  /\ PublishNodes weatherApp (PublishNodes weatherApp weatherPub)
     = PublishNodes weatherApp weatherPub
  /\ dom (publisher.Nodes (PublishNodes weatherApp (PublishNodes weatherApp weatherPub)))
     = dom (publisher.Nodes (PublishNodes weatherApp weatherPub))
  /\ size (publisher.Nodes (PublishNodes weatherApp (PublishNodes weatherApp weatherPub)))
     = size (publisher.Nodes (PublishNodes weatherApp weatherPub))
  /\ forall addr,
       publisher.outputs_of addr
         (PublishNodes weatherApp (PublishNodes weatherApp weatherPub))
       = publisher.outputs_of addr (PublishNodes weatherApp weatherPub)
       /\ size (publisher.outputs_of addr
                  (PublishNodes weatherApp (PublishNodes weatherApp weatherPub)))
          = size (publisher.outputs_of addr (PublishNodes weatherApp weatherPub)).
Proof.
  split; [apply PublishNodes_calls_again|].
  rewrite PublishNodes_fixpoint. repeat split.
Qed.

(** ** Provisioning: the language entry *)

(** The first two calls for a city: the node's language entry afterwards is
    the one it had, and [lc] if it had none; other nodes keep theirs. *)
Lemma language_config_city_node addr node st :
  standard.Config node !! "language" = None ->
  publisher.language_config addr
    (publisher.update_node_config node lc (publisher.update_node node st))
  = if decide (addr = publisher.node_addr node)
    then Some (default lc (publisher.language_config addr st))
    else publisher.language_config addr st.
Proof.
  intros Hfresh. unfold publisher.update_node.
  destruct (publisher.Nodes st !! publisher.node_addr node) as [registered|] eqn:Hnode.
  - unfold publisher.update_node_config. rewrite Hnode.
    change (standard.ConfigID lc) with "language".
    destruct (standard.Config registered !! "language") as [entry|] eqn:Hentry.
    + case_decide as Haddr; [|reflexivity].
      subst addr. unfold publisher.language_config. rewrite Hnode, Hentry. reflexivity.
    + unfold publisher.language_config. cbn [publisher.Nodes].
      case_decide as Haddr.
      * subst addr. rewrite lookup_insert_eq, Hnode, Hentry.
        cbn. rewrite lookup_insert_eq. reflexivity.
      * rewrite lookup_insert_ne by congruence. reflexivity.
  - unfold publisher.update_node_config. cbn [publisher.Nodes].
    rewrite lookup_insert_eq.
    change (standard.ConfigID lc) with "language". rewrite Hfresh.
    unfold publisher.language_config. cbn [publisher.Nodes].
    case_decide as Haddr.
    + subst addr. rewrite lookup_insert_eq, Hnode.
      cbn. rewrite lookup_insert_eq. reflexivity.
    + rewrite !lookup_insert_ne by congruence. reflexivity.
Qed.

Lemma language_config_new_output addr node ioType instance st :
  publisher.language_config addr (publisher.new_output node ioType instance st)
  = publisher.language_config addr st.
Proof.
  unfold publisher.new_output.
  destruct (publisher.Outputs st !! publisher.output_addr node ioType instance);
    reflexivity.
Qed.

(** The calls for a city, as a whole. *)
Lemma language_config_city weatherApp zone city addr st :
  publisher.language_config addr
    (publisher.provision_all (PublishNodes_city weatherApp zone city) st)
  = if decide (addr = publisher.node_addr (cityNode weatherApp zone city))
    then Some (default lc (publisher.language_config addr st))
    else publisher.language_config addr st.
Proof.
  unfold PublishNodes_city.
  cbn [publisher.provision_all fold_left publisher.provision].
  rewrite !language_config_new_output.
  apply language_config_city_node. reflexivity.
Qed.

(** Provisioning keeps a language entry that is there. *)
Lemma language_config_kept weatherApp zone cities addr st entry :
  publisher.language_config addr st = Some entry ->
  publisher.language_config addr
    (publisher.provision_all (flat_map (PublishNodes_city weatherApp zone) cities) st)
  = Some entry.
Proof.
  revert st. induction cities as [|city cities IH]; intros st Hentry; [exact Hentry|].
  cbn [flat_map]. rewrite provision_all_app. apply IH.
  rewrite language_config_city, Hentry. case_decide; reflexivity.
Qed.

(** After provisioning, the language entry of a city's node is the one it
    had before, and [lc] if it had none. *)
Lemma language_config_provisioned weatherApp zone cities city st :
  In city cities ->
  publisher.language_config (publisher.node_addr (cityNode weatherApp zone city))
    (publisher.provision_all (flat_map (PublishNodes_city weatherApp zone) cities) st)
  = Some (default lc
            (publisher.language_config
               (publisher.node_addr (cityNode weatherApp zone city)) st)).
Proof.
  revert st. induction cities as [|first cities IH]; intros st; [intros []|].
  intros Hin. cbn [flat_map]. rewrite provision_all_app.
  destruct (in_dec string_dec city cities) as [Hlater|Hlast].
  - rewrite (IH _ Hlater), language_config_city.
    case_decide; reflexivity.
  - destruct Hin as [->|Hin]; [|contradiction].
    apply language_config_kept.
    rewrite language_config_city, decide_True by reflexivity. reflexivity.
Qed.

(** C8: for every configured city, [PublishNodes] attaches to the city's
    node the entry "language" with default "en".  A node that had no
    language entry before (a newly provisioned node has none) has this
    entry afterwards; a node that had a language entry keeps the one it
    had. *)
Theorem PublishNodes_language_default
    (weatherApp : WeatherApp) (weatherPub : publisher.PublisherState)
    (city : string) :
  In city (Cities weatherApp) ->
  In (publisher.UpdateNodeConfig
        (cityNode weatherApp (standard.Zone (publisher.PublisherNode weatherPub)) city)
        lc)
     (PublishNodes_calls weatherApp weatherPub)
  /\ standard.ConfigID lc = "language"
  /\ standard.Default lc = "en"
  /\ (publisher.language_config
        (publisher.node_addr
           (cityNode weatherApp (standard.Zone (publisher.PublisherNode weatherPub)) city))
        weatherPub = None ->
      publisher.language_config
        (publisher.node_addr
           (cityNode weatherApp (standard.Zone (publisher.PublisherNode weatherPub)) city))
        (PublishNodes weatherApp weatherPub) = Some lc)
  /\ (forall prior,
        publisher.language_config
          (publisher.node_addr
             (cityNode weatherApp (standard.Zone (publisher.PublisherNode weatherPub)) city))
          weatherPub = Some prior ->
        publisher.language_config
          (publisher.node_addr
             (cityNode weatherApp (standard.Zone (publisher.PublisherNode weatherPub)) city))
          (PublishNodes weatherApp weatherPub) = Some prior).
Proof.
  intros Hcity. split; [|split; [reflexivity|split; [reflexivity|split]]].
  - unfold PublishNodes_calls. apply in_flat_map. exists city.
    split; [exact Hcity|]. right. left. reflexivity.
  - intros Hnone. unfold PublishNodes, PublishNodes_calls.
    rewrite language_config_provisioned by assumption. rewrite Hnone. reflexivity.
  - intros prior Hprior. unfold PublishNodes, PublishNodes_calls.
    rewrite language_config_provisioned by assumption. rewrite Hprior. reflexivity.
Qed.

Lemma PublishNodes_language_default_witness :
  publisher.language_config ("home", "openweathermap", "Berlin")
    (PublishNodes Scenario.weatherApp Scenario.configuredPub)
  = Some lc
  /\ publisher.language_config ("home", "openweathermap", "Amsterdam")
       (PublishNodes Scenario.weatherApp Scenario.configuredPub)
     = Some Scenario.dutch.
Proof.
  split.
  - refine (proj1 (proj2 (proj2 (proj2
             (PublishNodes_language_default Scenario.weatherApp Scenario.configuredPub
                "Berlin" _)))) _).
    + right. left. reflexivity.
    + vm_compute. reflexivity.
  - refine (proj2 (proj2 (proj2 (proj2
             (PublishNodes_language_default Scenario.weatherApp Scenario.configuredPub
                "Amsterdam" _)))) Scenario.dutch _).
    + left. reflexivity.
    + vm_compute. reflexivity.
Defined.

(** ** The update cycle as a whole *)

Section UpdateWeatherCycle.

Variable PublisherNodeID : string.
Variable GetCurrentWeather : string -> string -> string -> result CurrentWeather.

Local Abbreviation loop := (UpdateWeather_loop PublisherNodeID GetCurrentWeather).
Local Abbreviation passes := (weather_passes PublisherNodeID GetCurrentWeather).
Local Abbreviation calls_of := (weather_calls PublisherNodeID GetCurrentWeather).

Lemma UpdateWeather_loop_all_pass apikey nodes :
  Forall (passes apikey) nodes ->
  loop apikey nodes = flat_map (calls_of apikey) nodes.
Proof.
  intros Hnodes.
  pose proof (UpdateWeather_loop_app PublisherNodeID GetCurrentWeather apikey nodes []
                Hnodes) as Happ.
  rewrite !app_nil_r in Happ. exact Happ.
Qed.

Lemma UpdateWeather_values_shape node currentWeather call :
  In call (UpdateWeather_values node currentWeather) ->
  call_node call = Some node /\ is_output_value call = true.
Proof.
  cbn [UpdateWeather_values In].
  intros H; repeat (destruct H as [H|H]); try contradiction; subst call; split; reflexivity.
Qed.

Lemma weather_calls_length apikey nodes :
  Forall (passes apikey) nodes ->
  length (flat_map (calls_of apikey) nodes)
  = (8 * length (city_nodes PublisherNodeID nodes))%nat.
Proof.
  induction 1 as [|node nodes Hnode _ IH]; [reflexivity|].
  cbn [flat_map city_nodes List.filter]. rewrite length_app.
  fold (city_nodes PublisherNodeID nodes). rewrite IH.
  destruct (String.eqb_spec (standard.ID node) PublisherNodeID) as [Hid|Hid].
  - rewrite weather_calls_reserved by assumption. reflexivity.
  - destruct Hnode as [Hres|[currentWeather Hget]]; [contradiction|].
    rewrite (weather_calls_ok _ _ _ _ _ Hid Hget).
    unfold UpdateWeather_values. cbn [negb length]. lia.
Qed.

(** An error status in the loop: which one, why, and where. *)
Lemma UpdateWeather_loop_error apikey nodes node msg :
  In (publisher.SetErrorStatus node msg) (loop apikey nodes) ->
  msg = "Current weather not available"
  /\ In node nodes
  /\ standard.ID node <> PublisherNodeID
  /\ (exists err,
        GetCurrentWeather apikey (standard.ID node) (language_of node) = Err err)
  /\ exists front,
       loop apikey nodes = (front ++ [ publisher.SetErrorStatus node msg ])%list
       /\ Forall (fun call => is_output_value call = true) front.
Proof.
  induction nodes as [|first rest IH]; [intros []|].
  destruct (String.eqb_spec (standard.ID first) PublisherNodeID) as [Hid|Hid].
  - rewrite UpdateWeather_loop_reserved by assumption. intros Hin.
    destruct (IH Hin) as (Hmsg & Hnode & Hcity & Herr & Hfront).
    repeat split; try assumption. right. exact Hnode.
  - destruct (GetCurrentWeather apikey (standard.ID first) (language_of first))
      as [currentWeather|err] eqn:Hget.
    + rewrite (UpdateWeather_loop_ok _ _ _ _ _ _ Hid Hget). intros Hin.
      apply in_app_or in Hin. destruct Hin as [Hin|Hin].
      { apply UpdateWeather_values_shape in Hin. destruct Hin as [_ Hin]. discriminate. }
      destruct (IH Hin) as (Hmsg & Hnode & Hcity & Herr & front & Hloop & Hfront).
      repeat split; try assumption; [right; exact Hnode|].
      exists (UpdateWeather_values first currentWeather ++ front)%list. split.
      * rewrite Hloop, app_assoc. reflexivity.
      * apply Forall_app. split; [|exact Hfront].
        apply Forall_forall. intros call Hcall.
        apply list_elem_of_In, UpdateWeather_values_shape in Hcall. apply Hcall.
    + rewrite (UpdateWeather_loop_err _ _ _ _ _ _ Hid Hget).
      intros [Heq|[]]. injection Heq as <- <-.
      repeat split; try assumption; [left; reflexivity|eauto|].
      exists []. split; [reflexivity|constructor].
Qed.

Lemma UpdateWeather_loop_error_free apikey nodes :
  (forall node msg, ~ In (publisher.SetErrorStatus node msg) (loop apikey nodes)) ->
  Forall (passes apikey) nodes.
Proof.
  induction nodes as [|first rest IH]; [constructor|].
  destruct (String.eqb_spec (standard.ID first) PublisherNodeID) as [Hid|Hid].
  - rewrite UpdateWeather_loop_reserved by assumption. intros Hfree.
    constructor; [left; exact Hid|apply IH; exact Hfree].
  - destruct (GetCurrentWeather apikey (standard.ID first) (language_of first))
      as [currentWeather|err] eqn:Hget.
    + rewrite (UpdateWeather_loop_ok _ _ _ _ _ _ Hid Hget). intros Hfree.
      constructor; [right; eauto|].
      apply IH. intros node msg Hin. apply (Hfree node msg).
      apply in_or_app. right. exact Hin.
    + rewrite (UpdateWeather_loop_err _ _ _ _ _ _ Hid Hget). intros Hfree.
      exfalso. apply (Hfree first "Current weather not available"). left. reflexivity.
Qed.

Lemma UpdateWeather_loop_passes apikey nodes node msg :
  Forall (passes apikey) nodes ->
  ~ In (publisher.SetErrorStatus node msg) (loop apikey nodes).
Proof.
  intros Hnodes Hin. rewrite UpdateWeather_loop_all_pass in Hin by assumption.
  apply in_flat_map in Hin. destruct Hin as (other & _ & Hin).
  apply weather_calls_values in Hin. destruct Hin as (currentWeather & _ & _ & Hin).
  apply UpdateWeather_values_shape in Hin. destruct Hin as [_ Hin]. discriminate.
Qed.

(** The publisher's own node does not count. *)
Lemma UpdateWeather_loop_city_nodes apikey nodes :
  loop apikey nodes = loop apikey (city_nodes PublisherNodeID nodes).
Proof.
  induction nodes as [|first rest IH]; [reflexivity|].
  cbn [city_nodes List.filter]. fold (city_nodes PublisherNodeID rest).
  destruct (String.eqb_spec (standard.ID first) PublisherNodeID) as [Hid|Hid].
  - rewrite UpdateWeather_loop_reserved by assumption. exact IH.
  - cbn [negb].
    destruct (GetCurrentWeather apikey (standard.ID first) (language_of first))
      as [currentWeather|err] eqn:Hget.
    + rewrite !(UpdateWeather_loop_ok _ _ _ _ _ _ Hid Hget), IH. reflexivity.
    + rewrite !(UpdateWeather_loop_err _ _ _ _ _ _ Hid Hget). reflexivity.
Qed.

(** Every call of the loop is about a node of the list that is not the
    publisher's own, and none publishes a forecast. *)
Lemma UpdateWeather_loop_shape apikey nodes call :
  In call (loop apikey nodes) ->
  exists node,
    call_node call = Some node /\ In node nodes
    /\ standard.ID node <> PublisherNodeID /\ is_forecast call = false.
Proof.
  induction nodes as [|first rest IH]; [intros []|].
  destruct (String.eqb_spec (standard.ID first) PublisherNodeID) as [Hid|Hid].
  - rewrite UpdateWeather_loop_reserved by assumption. intros Hin.
    destruct (IH Hin) as (node & Hnode & Hrest & Hcity & Hkind).
    exists node. repeat split; try assumption. right. exact Hrest.
  - destruct (GetCurrentWeather apikey (standard.ID first) (language_of first))
      as [currentWeather|err] eqn:Hget.
    + rewrite (UpdateWeather_loop_ok _ _ _ _ _ _ Hid Hget). intros Hin.
      apply in_app_or in Hin. destruct Hin as [Hin|Hin].
      * apply UpdateWeather_values_shape in Hin. destruct Hin as [Hnode Hvalue].
        exists first. repeat split; try assumption; [left; reflexivity|].
        destruct call; try discriminate. reflexivity.
      * destruct (IH Hin) as (node & Hnode & Hrest & Hcity & Hkind).
        exists node. repeat split; try assumption. right. exact Hrest.
    + rewrite (UpdateWeather_loop_err _ _ _ _ _ _ Hid Hget).
      intros [<-|[]]. exists first. repeat split; try assumption. left. reflexivity.
Qed.

(** What comes after a failing node does not matter, whatever comes before
    it. *)
Lemma UpdateWeather_loop_cut apikey pre node rest err :
  standard.ID node <> PublisherNodeID ->
  GetCurrentWeather apikey (standard.ID node) (language_of node) = Err err ->
  loop apikey (pre ++ node :: rest) = loop apikey (pre ++ [node]).
Proof.
  intros Hid Hget. induction pre as [|first pre IH].
  - rewrite !app_nil_l.
    rewrite !(UpdateWeather_loop_err _ _ _ _ _ _ Hid Hget). reflexivity.
  - change ((first :: pre) ++ node :: rest)%list with (first :: (pre ++ node :: rest))%list.
    change ((first :: pre) ++ [node])%list with (first :: (pre ++ [node]))%list.
    cbn [UpdateWeather_loop]. rewrite IH. reflexivity.
Qed.

End UpdateWeatherCycle.

(** X1: when the weather client answers for every node other than the
    publisher's own, the cycle is the log line followed, node by node in
    list order, by the eight values of each such node: one call more than
    eight times the number of those nodes. *)
Theorem UpdateWeather_all_cities_updated
    (PublisherNodeID : string)
    (GetCurrentWeather : string -> string -> string -> result CurrentWeather)
    (weatherApp : WeatherApp) (nodes : list standard.Node) :
  Forall (weather_passes PublisherNodeID GetCurrentWeather (APIKey weatherApp)) nodes ->
  UpdateWeather PublisherNodeID GetCurrentWeather weatherApp nodes
  = publisher.LoggerInfo "UpdateWeather"
    :: flat_map (weather_calls PublisherNodeID GetCurrentWeather (APIKey weatherApp)) nodes
  /\ length (UpdateWeather PublisherNodeID GetCurrentWeather weatherApp nodes)
     = (1 + 8 * length (city_nodes PublisherNodeID nodes))%nat.
Proof.
  intros Hnodes. unfold UpdateWeather.
  rewrite UpdateWeather_loop_all_pass by assumption.
  split; [reflexivity|].
  cbn [length]. rewrite weather_calls_length by assumption. reflexivity.
Qed.

Lemma UpdateWeather_all_cities_updated_witness :
  length (UpdateWeather Scenario.publisherNodeID Scenario.clientUp Scenario.weatherApp
            [Scenario.amsterdam; Scenario.pubNode; Scenario.berlin])
  = 17%nat.
Proof.
  refine (proj2 (UpdateWeather_all_cities_updated Scenario.publisherNodeID
                   Scenario.clientUp Scenario.weatherApp
                   [Scenario.amsterdam; Scenario.pubNode; Scenario.berlin] _)).
  constructor; [right; exists Scenario.drizzle; reflexivity|].
  constructor; [left; reflexivity|].
  constructor; [right; exists Scenario.drizzle; reflexivity|].
  constructor.
Defined.

(** X2: a cycle sets no error status exactly when the weather client
    answers for every node other than the publisher's own. *)
Theorem UpdateWeather_error_free_iff
    (PublisherNodeID : string)
    (GetCurrentWeather : string -> string -> string -> result CurrentWeather)
    (weatherApp : WeatherApp) (nodes : list standard.Node) :
  (forall node msg,
     ~ In (publisher.SetErrorStatus node msg)
          (UpdateWeather PublisherNodeID GetCurrentWeather weatherApp nodes))
  <-> Forall (weather_passes PublisherNodeID GetCurrentWeather (APIKey weatherApp)) nodes.
Proof.
  unfold UpdateWeather. split.
  - intros Hfree. apply UpdateWeather_loop_error_free.
    intros node msg Hin. apply (Hfree node msg). right. exact Hin.
  - intros Hnodes node msg [Hlog|Hin]; [discriminate|].
    eapply UpdateWeather_loop_passes; eassumption.
Qed.

(** X3: an error status set in a cycle is "Current weather not available",
    on a node of the list other than the publisher's own for which the
    client returned an error; it is the last call of the cycle and the only
    error status in it. *)
Theorem UpdateWeather_error_status_is_last
    (PublisherNodeID : string)
    (GetCurrentWeather : string -> string -> string -> result CurrentWeather)
    (weatherApp : WeatherApp) (nodes : list standard.Node)
    (node : standard.Node) (msg : string) :
  In (publisher.SetErrorStatus node msg)
     (UpdateWeather PublisherNodeID GetCurrentWeather weatherApp nodes) ->
  msg = "Current weather not available"
  /\ In node nodes
  /\ standard.ID node <> PublisherNodeID
  /\ (exists err,
        GetCurrentWeather (APIKey weatherApp) (standard.ID node) (language_of node)
        = Err err)
  /\ exists front,
       UpdateWeather PublisherNodeID GetCurrentWeather weatherApp nodes
       = (front ++ [ publisher.SetErrorStatus node msg ])%list
       /\ Forall (fun call => is_error_status call = false) front.
Proof.
  unfold UpdateWeather. intros [Hlog|Hin]; [discriminate|].
  apply UpdateWeather_loop_error in Hin.
  destruct Hin as (Hmsg & Hnode & Hcity & Herr & front & Hloop & Hfront).
  repeat split; try assumption.
  exists (publisher.LoggerInfo "UpdateWeather" :: front). split.
  - rewrite Hloop. reflexivity.
  - constructor; [reflexivity|].
    eapply Forall_impl; [exact Hfront|].
    intros call Hcall. destruct call; try discriminate; reflexivity.
Qed.

Lemma UpdateWeather_error_status_is_last_witness :
  exists front,
    UpdateWeather Scenario.publisherNodeID Scenario.clientBerlinDown Scenario.weatherApp
      [Scenario.amsterdam; Scenario.berlin; Scenario.amsterdam]
    = (front ++ [ publisher.SetErrorStatus Scenario.berlin
                    "Current weather not available" ])%list
    /\ Forall (fun call => is_error_status call = false) front.
Proof.
  refine (proj2 (proj2 (proj2 (proj2
            (UpdateWeather_error_status_is_last Scenario.publisherNodeID
               Scenario.clientBerlinDown Scenario.weatherApp
               [Scenario.amsterdam; Scenario.berlin; Scenario.amsterdam]
               Scenario.berlin "Current weather not available" _))))).
  do 9 right. left. reflexivity.
Defined.

(** X4: the publisher's own node is skipped: a cycle over a list of nodes
    is the cycle over the nodes of the list other than the publisher's
    own. *)
Theorem UpdateWeather_ignores_publisher_node
    (PublisherNodeID : string)
    (GetCurrentWeather : string -> string -> string -> result CurrentWeather)
    (weatherApp : WeatherApp) (nodes : list standard.Node) :
  UpdateWeather PublisherNodeID GetCurrentWeather weatherApp nodes
  = UpdateWeather PublisherNodeID GetCurrentWeather weatherApp
      (city_nodes PublisherNodeID nodes).
Proof.
  unfold UpdateWeather. f_equal. apply UpdateWeather_loop_city_nodes.
Qed.

(** X5: every call of an update cycle is the log line or is about a node
    of the list other than the publisher's own; no call of an update cycle
    publishes a forecast. *)
Theorem UpdateWeather_calls_about_cities
    (PublisherNodeID : string)
    (GetCurrentWeather : string -> string -> string -> result CurrentWeather)
    (weatherApp : WeatherApp) (nodes : list standard.Node)
    (call : publisher.CycleCall) :
  In call (UpdateWeather PublisherNodeID GetCurrentWeather weatherApp nodes) ->
  is_forecast call = false
  /\ (call = publisher.LoggerInfo "UpdateWeather"
      \/ exists node,
           call_node call = Some node /\ In node nodes
           /\ standard.ID node <> PublisherNodeID).
Proof.
  unfold UpdateWeather. intros [<-|Hin].
  - split; [reflexivity|left; reflexivity].
  - apply UpdateWeather_loop_shape in Hin.
    destruct Hin as (node & Hnode & Hin & Hcity & Hkind).
    split; [exact Hkind|]. right. exists node. auto.
Qed.

Lemma UpdateWeather_calls_about_cities_witness :
  is_forecast (publisher.SetErrorStatus Scenario.berlin "Current weather not available")
  = false
  /\ (publisher.SetErrorStatus Scenario.berlin "Current weather not available"
      = publisher.LoggerInfo "UpdateWeather"
      \/ exists node,
           call_node (publisher.SetErrorStatus Scenario.berlin
                        "Current weather not available") = Some node
           /\ In node [Scenario.pubNode; Scenario.berlin]
           /\ standard.ID node <> Scenario.publisherNodeID).
Proof.
  apply (UpdateWeather_calls_about_cities Scenario.publisherNodeID
           Scenario.clientBerlinDown Scenario.weatherApp
           [Scenario.pubNode; Scenario.berlin]).
  right. left. reflexivity.
Defined.

(** X6: every value an update cycle writes is one of the eight computed
    from the client's answer for that node, its configured language and the
    adapter's API key, and goes to an output that [PublishNodes] declares
    for every city. *)
Theorem UpdateWeather_writes_declared_outputs
    (PublisherNodeID : string)
    (GetCurrentWeather : string -> string -> string -> result CurrentWeather)
    (weatherApp : WeatherApp) (nodes : list standard.Node)
    (node : standard.Node) (ioType : standard.IOType) (instance value : string) :
  In (publisher.UpdateOutputValue node ioType instance value)
     (UpdateWeather PublisherNodeID GetCurrentWeather weatherApp nodes) ->
  (exists currentWeather,
     GetCurrentWeather (APIKey weatherApp) (standard.ID node) (language_of node)
     = Ok currentWeather
     /\ In (publisher.UpdateOutputValue node ioType instance value)
           (UpdateWeather_values node currentWeather))
  /\ forall provisioned zone city,
       In (ioType, instance)
          (declared_outputs (publisher.node_addr (cityNode provisioned zone city))
             (PublishNodes_city provisioned zone city)).
Proof.
  unfold UpdateWeather. intros [Hlog|Hin]; [discriminate|].
  apply UpdateWeather_loop_sound in Hin.
  destruct Hin as (currentWeather & Hget & Hin).
  split; [eauto|].
  intros provisioned zone city. rewrite PublishNodes_city_declares.
  cbn [UpdateWeather_values In] in Hin.
  repeat (destruct Hin as [Hin|Hin]); try contradiction;
    injection Hin as <- <- _; cbn [In]; tauto.
Qed.

Lemma UpdateWeather_writes_declared_outputs_witness :
  In (standard.IOTypeRain, "hour")
     (declared_outputs (publisher.node_addr (cityNode Scenario.weatherApp "home" "Berlin"))
        (PublishNodes_city Scenario.weatherApp "home" "Berlin")).
Proof.
  refine (proj2 (UpdateWeather_writes_declared_outputs Scenario.publisherNodeID
                   Scenario.clientUp Scenario.weatherApp [Scenario.amsterdam]
                   Scenario.amsterdam standard.IOTypeRain "hour" "2.0" _)
            Scenario.weatherApp "home" "Berlin").
  do 7 right. left. reflexivity.
Defined.

(** X7: when the client fails for a node other than the publisher's own,
    the nodes after it in the list do not matter, whatever happened at the
    nodes before it. *)
Theorem UpdateWeather_failure_cuts_cycle
    (PublisherNodeID : string)
    (GetCurrentWeather : string -> string -> string -> result CurrentWeather)
    (weatherApp : WeatherApp) (pre : list standard.Node) (node : standard.Node)
    (rest : list standard.Node) (err : string) :
  standard.ID node <> PublisherNodeID ->
  GetCurrentWeather (APIKey weatherApp) (standard.ID node) (language_of node) = Err err ->
  UpdateWeather PublisherNodeID GetCurrentWeather weatherApp (pre ++ node :: rest)
  = UpdateWeather PublisherNodeID GetCurrentWeather weatherApp (pre ++ [node]).
Proof.
  intros Hid Hget. unfold UpdateWeather. f_equal.
  eapply UpdateWeather_loop_cut; eassumption.
Qed.

Lemma UpdateWeather_failure_cuts_cycle_witness :
  UpdateWeather Scenario.publisherNodeID Scenario.clientBerlinDown Scenario.weatherApp
    ([Scenario.amsterdam] ++ Scenario.berlin :: [Scenario.amsterdam; Scenario.pubNode])
  = UpdateWeather Scenario.publisherNodeID Scenario.clientBerlinDown Scenario.weatherApp
      ([Scenario.amsterdam] ++ [Scenario.berlin]).
Proof.
  apply (UpdateWeather_failure_cuts_cycle Scenario.publisherNodeID
           Scenario.clientBerlinDown Scenario.weatherApp [Scenario.amsterdam]
           Scenario.berlin [Scenario.amsterdam; Scenario.pubNode] "city not found").
  - discriminate.
  - reflexivity.
Defined.

(** X8: cycles compose: after a list of nodes the cycle gets past, the
    cycle over more nodes goes on as the cycle over those nodes alone does
    after its log line. *)
Theorem UpdateWeather_cycle_split
    (PublisherNodeID : string)
    (GetCurrentWeather : string -> string -> string -> result CurrentWeather)
    (weatherApp : WeatherApp) (pre rest : list standard.Node) :
  Forall (weather_passes PublisherNodeID GetCurrentWeather (APIKey weatherApp)) pre ->
  UpdateWeather PublisherNodeID GetCurrentWeather weatherApp (pre ++ rest)
  = (UpdateWeather PublisherNodeID GetCurrentWeather weatherApp pre
     ++ List.tl (UpdateWeather PublisherNodeID GetCurrentWeather weatherApp rest))%list.
Proof.
  intros Hpre. unfold UpdateWeather. cbn [List.tl].
  rewrite UpdateWeather_loop_app by assumption.
  rewrite (UpdateWeather_loop_all_pass _ _ _ _ Hpre). reflexivity.
Qed.

Lemma UpdateWeather_cycle_split_witness :
  UpdateWeather Scenario.publisherNodeID Scenario.clientBerlinDown Scenario.weatherApp
    ([Scenario.pubNode; Scenario.amsterdam] ++ [Scenario.berlin])
  = (UpdateWeather Scenario.publisherNodeID Scenario.clientBerlinDown Scenario.weatherApp
       [Scenario.pubNode; Scenario.amsterdam]
     ++ [ publisher.SetErrorStatus Scenario.berlin "Current weather not available" ])%list.
Proof.
  refine (UpdateWeather_cycle_split Scenario.publisherNodeID Scenario.clientBerlinDown
            Scenario.weatherApp [Scenario.pubNode; Scenario.amsterdam]
            [Scenario.berlin] _).
  constructor; [left; reflexivity|].
  constructor; [right; exists Scenario.drizzle; reflexivity|].
  constructor.
Defined.

(** ** The forecast cycle as a whole *)

Lemma UpdateForecast_values_shape node forecasts call :
  In call (UpdateForecast_values node forecasts) ->
  call_node call = Some node /\ is_forecast call = true.
Proof.
  unfold UpdateForecast_values.
  destruct (forecast_lists forecasts) as [[weatherList maxTempList] minTempList].
  cbn [In].
  intros H; repeat (destruct H as [H|H]); try contradiction; subst call; split; reflexivity.
Qed.

Lemma UpdateForecast_values_length node forecasts :
  length (UpdateForecast_values node forecasts) = 3%nat.
Proof.
  unfold UpdateForecast_values.
  destruct (forecast_lists forecasts) as [[weatherList maxTempList] minTempList].
  reflexivity.
Qed.

Section UpdateForecastCycle.

Variable PublisherNodeID : string.
Variable GetDailyForecast : string -> string -> string -> result DailyForecast.

Local Abbreviation loop := (UpdateForecast_loop PublisherNodeID GetDailyForecast).
Local Abbreviation passes := (forecast_passes PublisherNodeID GetDailyForecast).
Local Abbreviation calls_of := (forecast_calls PublisherNodeID GetDailyForecast).

Lemma UpdateForecast_loop_all_pass apikey nodes :
  Forall (passes apikey) nodes ->
  loop apikey nodes = flat_map (calls_of apikey) nodes.
Proof.
  intros Hnodes.
  pose proof (UpdateForecast_loop_app PublisherNodeID GetDailyForecast apikey nodes []
                Hnodes) as Happ.
  rewrite !app_nil_r in Happ. exact Happ.
Qed.

Lemma forecast_calls_length apikey nodes :
  Forall (passes apikey) nodes ->
  length (flat_map (calls_of apikey) nodes)
  = (3 * length (city_nodes PublisherNodeID nodes))%nat.
Proof.
  induction 1 as [|node nodes Hnode _ IH]; [reflexivity|].
  cbn [flat_map city_nodes List.filter]. rewrite length_app.
  fold (city_nodes PublisherNodeID nodes). rewrite IH.
  destruct (String.eqb_spec (standard.ID node) PublisherNodeID) as [Hid|Hid].
  - rewrite forecast_calls_reserved by assumption. reflexivity.
  - destruct Hnode as [Hres|[forecasts Hget]]; [contradiction|].
    rewrite (forecast_calls_ok _ _ _ _ _ Hid Hget), UpdateForecast_values_length.
    cbn [negb length]. lia.
Qed.

(** The three cases of the loop at a node other than the publisher's own. *)
Lemma UpdateForecast_loop_cases apikey node rest :
  standard.ID node <> PublisherNodeID ->
  (exists err,
     GetDailyForecast apikey (standard.ID node) (language_of node) = Err err
     /\ loop apikey (node :: rest)
        = [ publisher.SetErrorStatus node "Error getting the daily forecast" ])
  \/ (GetDailyForecast apikey (standard.ID node) (language_of node)
      = Ok {| ForecastList := None |}
      /\ loop apikey (node :: rest)
         = [ publisher.SetErrorStatus node "Daily forecast not provided" ])
  \/ (exists forecasts,
        GetDailyForecast apikey (standard.ID node) (language_of node)
        = Ok {| ForecastList := Some forecasts |}
        /\ loop apikey (node :: rest)
           = (UpdateForecast_values node forecasts ++ loop apikey rest)%list).
Proof.
  intros Hid.
  destruct (GetDailyForecast apikey (standard.ID node) (language_of node))
    as [[[forecasts|]]|err] eqn:Hget.
  - right. right. exists forecasts. split; [reflexivity|].
    apply UpdateForecast_loop_ok; assumption.
  - right. left. split; [reflexivity|].
    apply UpdateForecast_loop_nil; assumption.
  - left. exists err. split; [reflexivity|].
    eapply UpdateForecast_loop_err; eassumption.
Qed.

(** An error status in the loop: which one, why, and where. *)
Lemma UpdateForecast_loop_error apikey nodes node msg :
  In (publisher.SetErrorStatus node msg) (loop apikey nodes) ->
  In node nodes
  /\ standard.ID node <> PublisherNodeID
  /\ ((msg = "Error getting the daily forecast"
       /\ exists err,
            GetDailyForecast apikey (standard.ID node) (language_of node) = Err err)
      \/ (msg = "Daily forecast not provided"
          /\ GetDailyForecast apikey (standard.ID node) (language_of node)
             = Ok {| ForecastList := None |}))
  /\ exists front,
       loop apikey nodes = (front ++ [ publisher.SetErrorStatus node msg ])%list
       /\ Forall (fun call => is_forecast call = true) front.
Proof.
  induction nodes as [|first rest IH]; [intros []|].
  destruct (String.eqb_spec (standard.ID first) PublisherNodeID) as [Hid|Hid].
  - rewrite UpdateForecast_loop_reserved by assumption. intros Hin.
    destruct (IH Hin) as (Hnode & Hcity & Hwhy & Hfront).
    repeat split; try assumption. right. exact Hnode.
  - destruct (UpdateForecast_loop_cases apikey first rest Hid)
      as [(err & Hget & Hloop)|[(Hget & Hloop)|(forecasts & Hget & Hloop)]];
      rewrite Hloop.
    + intros [Heq|[]]. injection Heq as <- <-.
      repeat split; try assumption; [left; reflexivity|left; eauto|].
      exists []. split; [reflexivity|constructor].
    + intros [Heq|[]]. injection Heq as <- <-.
      repeat split; try assumption; [left; reflexivity|right; eauto|].
      exists []. split; [reflexivity|constructor].
    + intros Hin. apply in_app_or in Hin. destruct Hin as [Hin|Hin].
      { apply UpdateForecast_values_shape in Hin. destruct Hin as [_ Hin]. discriminate. }
      destruct (IH Hin) as (Hnode & Hcity & Hwhy & front & Hrest & Hfront).
      repeat split; try assumption; [right; exact Hnode|].
      exists (UpdateForecast_values first forecasts ++ front)%list. split.
      * rewrite Hrest, app_assoc. reflexivity.
      * apply Forall_app. split; [|exact Hfront].
        apply Forall_forall. intros call Hcall.
        apply list_elem_of_In, UpdateForecast_values_shape in Hcall. apply Hcall.
Qed.

(** The publisher's own node does not count. *)
Lemma UpdateForecast_loop_city_nodes apikey nodes :
  loop apikey nodes = loop apikey (city_nodes PublisherNodeID nodes).
Proof.
  induction nodes as [|first rest IH]; [reflexivity|].
  cbn [city_nodes List.filter]. fold (city_nodes PublisherNodeID rest).
  destruct (String.eqb_spec (standard.ID first) PublisherNodeID) as [Hid|Hid].
  - rewrite UpdateForecast_loop_reserved by assumption. exact IH.
  - cbn [negb].
    destruct (UpdateForecast_loop_cases apikey first rest Hid)
      as [(err & Hget & Hloop)|[(Hget & Hloop)|(forecasts & Hget & Hloop)]];
      rewrite Hloop.
    + rewrite (UpdateForecast_loop_err _ _ _ _ _ _ Hid Hget). reflexivity.
    + rewrite (UpdateForecast_loop_nil _ _ _ _ _ Hid Hget). reflexivity.
    + rewrite (UpdateForecast_loop_ok _ _ _ _ _ _ Hid Hget), IH. reflexivity.
Qed.

(** Every call of the loop is about a node of the list that is not the
    publisher's own; none writes an output value and none is a log line. *)
Lemma UpdateForecast_loop_shape apikey nodes call :
  In call (loop apikey nodes) ->
  exists node,
    call_node call = Some node /\ In node nodes
    /\ standard.ID node <> PublisherNodeID /\ is_output_value call = false.
Proof.
  induction nodes as [|first rest IH]; [intros []|].
  destruct (String.eqb_spec (standard.ID first) PublisherNodeID) as [Hid|Hid].
  - rewrite UpdateForecast_loop_reserved by assumption. intros Hin.
    destruct (IH Hin) as (node & Hnode & Hrest & Hcity & Hkind).
    exists node. repeat split; try assumption. right. exact Hrest.
  - destruct (UpdateForecast_loop_cases apikey first rest Hid)
      as [(err & Hget & Hloop)|[(Hget & Hloop)|(forecasts & Hget & Hloop)]];
      rewrite Hloop.
    + intros [<-|[]]. exists first. repeat split; try assumption. left. reflexivity.
    + intros [<-|[]]. exists first. repeat split; try assumption. left. reflexivity.
    + intros Hin. apply in_app_or in Hin. destruct Hin as [Hin|Hin].
      * apply UpdateForecast_values_shape in Hin. destruct Hin as [Hnode Hvalue].
        exists first. repeat split; try assumption; [left; reflexivity|].
        destruct call; try discriminate. reflexivity.
      * destruct (IH Hin) as (node & Hnode & Hrest & Hcity & Hkind).
        exists node. repeat split; try assumption. right. exact Hrest.
Qed.

End UpdateForecastCycle.

(** The conversion to 64 bits leaves a number of that range alone. *)
Lemma int64_in_range x : - 2 ^ 63 <= x < 2 ^ 63 -> int64 x = x.
Proof.
  intros Hx. unfold int64.
  change (2 ^ 64) with (2 * 2 ^ 63).
  rewrite Z.mod_small; lia.
Qed.

Lemma map_Timestamp_weather_entry forecasts :
  Forall (fun forecast => - 2 ^ 63 <= Date forecast < 2 ^ 63) forecasts ->
  map standard.Timestamp (map weather_entry forecasts) = map Date forecasts.
Proof.
  induction 1 as [|forecast forecasts Hdate _ IH]; [reflexivity|].
  cbn [map weather_entry standard.Timestamp].
  rewrite int64_in_range by assumption. f_equal. exact IH.
Qed.

(** The three lists after the loop. *)
Lemma forecast_lists_spec forecasts :
  forecast_lists forecasts
  = (map weather_entry forecasts,
     map max_entry forecasts,
     match last forecasts with
     | None => []
     | Some final => (map max_entry forecasts ++ [min_entry final])%list
     end).
Proof.
  unfold forecast_lists. rewrite forecast_step_fold. reflexivity.
Qed.

(** X9: when the forecast client answers with a list that is not nil for
    every node other than the publisher's own, the cycle consists of three
    forecasts for each such node, node by node in list order, and of
    nothing else: there is no log line. *)
Theorem UpdateForecast_all_cities_published
    (PublisherNodeID : string)
    (GetDailyForecast : string -> string -> string -> result DailyForecast)
    (weatherApp : WeatherApp) (nodes : list standard.Node) :
  Forall (forecast_passes PublisherNodeID GetDailyForecast (APIKey weatherApp)) nodes ->
  UpdateForecast PublisherNodeID GetDailyForecast weatherApp nodes
  = flat_map (forecast_calls PublisherNodeID GetDailyForecast (APIKey weatherApp)) nodes
  /\ length (UpdateForecast PublisherNodeID GetDailyForecast weatherApp nodes)
     = (3 * length (city_nodes PublisherNodeID nodes))%nat
  /\ Forall (fun call => is_forecast call = true)
       (UpdateForecast PublisherNodeID GetDailyForecast weatherApp nodes).
Proof.
  intros Hnodes. unfold UpdateForecast.
  rewrite UpdateForecast_loop_all_pass by assumption.
  split; [reflexivity|]. split; [apply forecast_calls_length; assumption|].
  apply Forall_forall. intros call Hcall.
  apply list_elem_of_In, in_flat_map in Hcall. destruct Hcall as (node & _ & Hcall).
  unfold forecast_calls in Hcall.
  destruct (String.eqb (standard.ID node) PublisherNodeID); [destruct Hcall|].
  destruct (GetDailyForecast _ _ _) as [[[forecasts|]]|err]; try destruct Hcall.
  apply UpdateForecast_values_shape in Hcall. apply Hcall.
Qed.

Lemma UpdateForecast_all_cities_published_witness :
  length (UpdateForecast Scenario.publisherNodeID Scenario.forecastUp Scenario.weatherApp
            [Scenario.amsterdam; Scenario.pubNode; Scenario.berlin])
  = 6%nat.
Proof.
  refine (proj1 (proj2 (UpdateForecast_all_cities_published Scenario.publisherNodeID
                          Scenario.forecastUp Scenario.weatherApp
                          [Scenario.amsterdam; Scenario.pubNode; Scenario.berlin] _))).
  constructor; [right; exists [Scenario.monday; Scenario.tuesday]; reflexivity|].
  constructor; [left; reflexivity|].
  constructor; [right; exists [Scenario.monday; Scenario.tuesday]; reflexivity|].
  constructor.
Defined.

(** X10: an error status set in a forecast cycle is on a node of the list
    other than the publisher's own, and tells the cause: "Error getting the
    daily forecast" when the client returned an error, "Daily forecast not
    provided" when the response has no list.  It is the last call of the
    cycle; the calls before it are forecasts. *)
Theorem UpdateForecast_error_status_is_last
    (PublisherNodeID : string)
    (GetDailyForecast : string -> string -> string -> result DailyForecast)
    (weatherApp : WeatherApp) (nodes : list standard.Node)
    (node : standard.Node) (msg : string) :
  In (publisher.SetErrorStatus node msg)
     (UpdateForecast PublisherNodeID GetDailyForecast weatherApp nodes) ->
  In node nodes
  /\ standard.ID node <> PublisherNodeID
  /\ ((msg = "Error getting the daily forecast"
       /\ exists err,
            GetDailyForecast (APIKey weatherApp) (standard.ID node) (language_of node)
            = Err err)
      \/ (msg = "Daily forecast not provided"
          /\ GetDailyForecast (APIKey weatherApp) (standard.ID node) (language_of node)
             = Ok {| ForecastList := None |}))
  /\ exists front,
       UpdateForecast PublisherNodeID GetDailyForecast weatherApp nodes
       = (front ++ [ publisher.SetErrorStatus node msg ])%list
       /\ Forall (fun call => is_forecast call = true) front.
Proof.
  unfold UpdateForecast. apply UpdateForecast_loop_error.
Qed.

Lemma UpdateForecast_error_status_is_last_witness :
  exists front,
    UpdateForecast Scenario.publisherNodeID Scenario.forecastBerlinNil Scenario.weatherApp
      [Scenario.amsterdam; Scenario.berlin; Scenario.amsterdam]
    = (front ++ [ publisher.SetErrorStatus Scenario.berlin
                    "Daily forecast not provided" ])%list
    /\ Forall (fun call => is_forecast call = true) front.
Proof.
  refine (proj2 (proj2 (proj2
            (UpdateForecast_error_status_is_last Scenario.publisherNodeID
               Scenario.forecastBerlinNil Scenario.weatherApp
               [Scenario.amsterdam; Scenario.berlin; Scenario.amsterdam]
               Scenario.berlin "Daily forecast not provided" _)))).
  do 3 right. left. reflexivity.
Defined.

(** X11: the publisher's own node is skipped by the forecast cycle, and
    every call of a forecast cycle is about a node of the list other than
    the publisher's own; a forecast cycle writes no output value and no log
    line. *)
Theorem UpdateForecast_ignores_publisher_node
    (PublisherNodeID : string)
    (GetDailyForecast : string -> string -> string -> result DailyForecast)
    (weatherApp : WeatherApp) (nodes : list standard.Node) :
  UpdateForecast PublisherNodeID GetDailyForecast weatherApp nodes
  = UpdateForecast PublisherNodeID GetDailyForecast weatherApp
      (city_nodes PublisherNodeID nodes)
  /\ Forall (fun call =>
               is_output_value call = false
               /\ exists node,
                    call_node call = Some node /\ In node nodes
                    /\ standard.ID node <> PublisherNodeID)
       (UpdateForecast PublisherNodeID GetDailyForecast weatherApp nodes).
Proof.
  unfold UpdateForecast. split; [apply UpdateForecast_loop_city_nodes|].
  apply Forall_forall. intros call Hcall.
  apply list_elem_of_In, UpdateForecast_loop_shape in Hcall.
  destruct Hcall as (node & Hnode & Hin & Hcity & Hkind).
  split; [exact Hkind|]. exists node. auto.
Qed.

(** X12: for a forecast list that is not empty, the list published to
    (temperature, "min") has one entry more than there are forecasts, and
    its last two entries, the max and the min temperature of the last
    forecast, carry the same timestamp. *)
Theorem UpdateForecast_min_list_length
    (node : standard.Node) (forecasts : list Forecast)
    (minTempList : standard.HistoryList) :
  forecasts <> [] ->
  In (publisher.UpdateForecast node standard.IOTypeTemperature "min" minTempList)
     (UpdateForecast_values node forecasts) ->
  length minTempList = S (length forecasts)
  /\ exists front final,
       last forecasts = Some final
       /\ minTempList = (front ++ [max_entry final; min_entry final])%list
       /\ standard.Timestamp (max_entry final) = standard.Timestamp (min_entry final).
Proof.
  intros Hforecasts. unfold UpdateForecast_values.
  rewrite forecast_lists_spec. cbn [In].
  intros [H|[H|[H|[]]]]; try discriminate H.
  injection H as <-.
  destruct (last forecasts) as [final|] eqn:Hlast;
    [|apply last_None in Hlast; contradiction].
  split.
  - rewrite length_app, length_map. cbn [length]. lia.
  - apply last_Some in Hlast. destruct Hlast as [init ->].
    exists (map max_entry init), final.
    split; [reflexivity|].
    split; [|reflexivity].
    rewrite map_app, <- app_assoc. reflexivity.
Qed.

Lemma UpdateForecast_min_list_length_witness :
  length [ {| standard.Timestamp := 1600000000; standard.HistValue := "21.5" |};
           {| standard.Timestamp := 1600086400; standard.HistValue := "19.0" |};
           {| standard.Timestamp := 1600086400; standard.HistValue := "9.5" |} ]
  = S (length [Scenario.monday; Scenario.tuesday]).
Proof.
  refine (proj1 (UpdateForecast_min_list_length Scenario.amsterdam
                   [Scenario.monday; Scenario.tuesday] _ _ _)).
  - discriminate.
  - do 2 right. left. reflexivity.
Defined.

(** X13: for forecast dates that fit in 64 bits, the list published to
    (weather, "forecast") has one entry per forecast, in the order of the
    forecast list: its timestamps are the forecast dates and its values the
    first description of each forecast, the empty string where a forecast
    has none. *)
Theorem UpdateForecast_weather_list
    (node : standard.Node) (forecasts : list Forecast)
    (weatherList : standard.HistoryList) :
  Forall (fun forecast => - 2 ^ 63 <= Date forecast < 2 ^ 63) forecasts ->
  In (publisher.UpdateForecast node standard.IOTypeWeather ForecastWeatherInst weatherList)
     (UpdateForecast_values node forecasts) ->
  map standard.Timestamp weatherList = map Date forecasts
  /\ map standard.HistValue weatherList
     = map (fun forecast =>
              match DayWeather forecast with
              | [] => ""
              | first :: _ => Description first
              end) forecasts.
Proof.
  intros Hdates. unfold UpdateForecast_values.
  rewrite forecast_lists_spec. cbn [In].
  intros [H|[H|[H|[]]]]; try discriminate H.
  injection H as <-. split.
  - apply map_Timestamp_weather_entry. exact Hdates.
  - rewrite map_map. apply map_ext. intros forecast.
    cbn. destruct (DayWeather forecast); reflexivity.
Qed.

Lemma UpdateForecast_weather_list_witness :
  map standard.Timestamp
    [ {| standard.Timestamp := 1600000000; standard.HistValue := "clear sky" |};
      {| standard.Timestamp := 1600086400; standard.HistValue := "" |} ]
  = map Date [Scenario.monday; Scenario.tuesday].
Proof.
  refine (proj1 (UpdateForecast_weather_list Scenario.amsterdam
                   [Scenario.monday; Scenario.tuesday] _ _ _)).
  - repeat constructor; vm_compute; congruence.
  - left. reflexivity.
Defined.

(** ** Provisioning as a whole *)

Lemma declared_outputs_app addr calls1 calls2 :
  declared_outputs addr (calls1 ++ calls2)
  = (declared_outputs addr calls1 ++ declared_outputs addr calls2)%list.
Proof. unfold declared_outputs. apply omap_app. Qed.

(** The calls for a city declare nothing on the node of another city. *)
Lemma declared_outputs_other_city weatherApp zone city other :
  other <> city ->
  declared_outputs (publisher.node_addr (cityNode weatherApp zone city))
    (PublishNodes_city weatherApp zone other)
  = [].
Proof.
  intros Hother. unfold declared_outputs, PublishNodes_city, cityNode. cbn.
  rewrite !decide_False by (intros Heq; injection Heq; exact Hother).
  reflexivity.
Qed.

Lemma declared_outputs_absent_city weatherApp zone city cities :
  ~ In city cities ->
  declared_outputs (publisher.node_addr (cityNode weatherApp zone city))
    (flat_map (PublishNodes_city weatherApp zone) cities)
  = [].
Proof.
  induction cities as [|other cities IH]; [reflexivity|].
  intros Hnotin. cbn [flat_map]. rewrite declared_outputs_app.
  rewrite declared_outputs_other_city, IH; [reflexivity| |].
  - intros Hin. apply Hnotin. right. exact Hin.
  - intros ->. apply Hnotin. left. reflexivity.
Qed.

Lemma declared_outputs_listed_city weatherApp zone city cities :
  List.NoDup cities ->
  In city cities ->
  declared_outputs (publisher.node_addr (cityNode weatherApp zone city))
    (flat_map (PublishNodes_city weatherApp zone) cities)
  = city_outputs.
Proof.
  induction 1 as [|first cities Hfirst _ IH]; [intros []|].
  intros Hin. cbn [flat_map]. rewrite declared_outputs_app.
  destruct (string_dec first city) as [->|Hne].
  - rewrite PublishNodes_city_declares, declared_outputs_absent_city by assumption.
    reflexivity.
  - destruct Hin as [Heq|Hin]; [contradiction|].
    rewrite declared_outputs_other_city, (IH Hin) by assumption. reflexivity.
Qed.

Lemma city_outputs_NoDup : List.NoDup city_outputs.
Proof.
  unfold city_outputs.
  repeat (constructor; [cbn [In]; intros H; repeat (destruct H as [H|H]);
                        try contradiction; discriminate|]).
  constructor.
Qed.

Lemma PublishNodes_city_kinds weatherApp zone city :
  length (List.filter is_update_node (PublishNodes_city weatherApp zone city)) = 1%nat
  /\ length (List.filter is_update_node_config (PublishNodes_city weatherApp zone city))
     = 1%nat
  /\ length (List.filter is_new_output (PublishNodes_city weatherApp zone city)) = 11%nat.
Proof. repeat split. Qed.

(** X14: for a list of n cities [PublishNodes] makes 13 n calls: n node
    updates, n configuration updates and 11 n output declarations; for an
    empty list it makes none. *)
Theorem PublishNodes_calls_count
    (weatherApp : WeatherApp) (weatherPub : publisher.PublisherState) :
  length (PublishNodes_calls weatherApp weatherPub)
  = (13 * length (Cities weatherApp))%nat
  /\ length (List.filter is_update_node (PublishNodes_calls weatherApp weatherPub))
     = length (Cities weatherApp)
  /\ length (List.filter is_update_node_config (PublishNodes_calls weatherApp weatherPub))
     = length (Cities weatherApp)
  /\ length (List.filter is_new_output (PublishNodes_calls weatherApp weatherPub))
     = (11 * length (Cities weatherApp))%nat.
Proof.
  unfold PublishNodes_calls.
  induction (Cities weatherApp) as [|city cities IH]; [repeat split|].
  destruct IH as (Hall & Hnodes & Hconfigs & Houtputs).
  cbn [flat_map]. rewrite !List.filter_app, !length_app.
  rewrite Hall, Hnodes, Hconfigs, Houtputs.
  destruct (PublishNodes_city_kinds weatherApp
              (standard.Zone (publisher.PublisherNode weatherPub)) city)
    as (-> & -> & ->).
  unfold PublishNodes_city. cbn [length]. repeat split; lia.
Qed.

(** X15: when no city is listed twice, the outputs [PublishNodes] declares
    on the node of a listed city are the eleven of the loop body, once
    each and in the order of the source; the eleven are pairwise
    distinct. *)
Theorem PublishNodes_declares_city_outputs
    (weatherApp : WeatherApp) (weatherPub : publisher.PublisherState)
    (city : string) :
  List.NoDup (Cities weatherApp) ->
  In city (Cities weatherApp) ->
  declared_outputs
    (publisher.node_addr
       (cityNode weatherApp (standard.Zone (publisher.PublisherNode weatherPub)) city))
    (PublishNodes_calls weatherApp weatherPub)
  = city_outputs
  /\ List.NoDup city_outputs
  /\ length city_outputs = 11%nat.
Proof.
  intros Hnodup Hcity. unfold PublishNodes_calls.
  rewrite declared_outputs_listed_city by assumption.
  split; [reflexivity|]. split; [apply city_outputs_NoDup|reflexivity].
Qed.

Lemma PublishNodes_declares_city_outputs_witness :
  declared_outputs ("home", "openweathermap", "Berlin")
    (PublishNodes_calls Scenario.weatherApp Scenario.configuredPub)
  = city_outputs.
Proof.
  refine (proj1 (PublishNodes_declares_city_outputs Scenario.weatherApp
                   Scenario.configuredPub "Berlin" _ _)).
  - constructor; [intros [H|[]]; discriminate H|].
    constructor; [intros []|]. constructor.
  - right. left. reflexivity.
Defined.

(** X16: every call of [PublishNodes] is about the node of a listed city,
    in the zone of the publisher's node and under the adapter's publisher
    identifier; the only configuration entry it attaches is the language
    entry with default "en". *)
Theorem PublishNodes_calls_about_cities
    (weatherApp : WeatherApp) (weatherPub : publisher.PublisherState)
    (call : publisher.ProvisionCall) :
  In call (PublishNodes_calls weatherApp weatherPub) ->
  (exists city,
     In city (Cities weatherApp)
     /\ standard.Zone (provision_node call)
        = standard.Zone (publisher.PublisherNode weatherPub)
     /\ standard.Publisher (provision_node call) = PublisherID weatherApp
     /\ standard.ID (provision_node call) = city)
  /\ forall node config,
       call = publisher.UpdateNodeConfig node config ->
       standard.ConfigID config = "language" /\ standard.Default config = "en".
Proof.
  unfold PublishNodes_calls. intros Hin.
  apply in_flat_map in Hin. destruct Hin as (city & Hcity & Hin).
  unfold PublishNodes_city in Hin. cbn [In] in Hin.
  repeat (destruct Hin as [Hin|Hin]); try contradiction; subst call;
    (split; [exists city; repeat split; assumption
            |intros node config Heq; try discriminate Heq;
             injection Heq as _ <-; split; reflexivity]).
Qed.

Lemma PublishNodes_calls_about_cities_witness :
  exists city,
    In city ["Amsterdam"; "Berlin"]
    /\ standard.Zone (cityNode Scenario.weatherApp "home" "Berlin") = "home"
    /\ standard.Publisher (cityNode Scenario.weatherApp "home" "Berlin") = "openweathermap"
    /\ standard.ID (cityNode Scenario.weatherApp "home" "Berlin") = city.
Proof.
  refine (proj1 (PublishNodes_calls_about_cities Scenario.weatherApp Scenario.emptyPub
                   (publisher.NewOutput (cityNode Scenario.weatherApp "home" "Berlin")
                      standard.IOTypeTemperature "max") _)).
  do 24 right. left. reflexivity.
Defined.
